(** * Gree A/C infrared protocol: the command record, its checksum and the codec

    A shallow embedding of [ir_Gree.cpp] (IRremoteESP8266): the [IRGreeAC]
    state class, [IRsend::sendGree] and [IRrecv::decodeGree].

    Conventions.  A [uint8_t], [uint16_t] or [uint32_t] value is a [Z]; every
    store into such a variable goes through [u8], [u16] or [u32], which is the
    wrap-around of the C++ conversion.  A byte array is a [list Z]; reading is
    [rd] and storing a byte is [wr8] (every index the modelled code uses is
    inside the array, see the length hypotheses of the theorems). *)

From Stdlib Require Import ZArith Lia Bool.
From stdpp Require Import base list.

Local Open Scope Z_scope.

(** ** Machine integers and arrays *)

Definition u8 (x : Z) : Z := x mod 2 ^ 8.
Definition u16 (x : Z) : Z := x mod 2 ^ 16.
Definition u32 (x : Z) : Z := x mod 2 ^ 32.

Definition is_u8 (x : Z) : Prop := 0 <= x < 256.

(** [a[i]] *)
Definition rd (a : list Z) (i : Z) : Z := default 0 (a !! Z.to_nat i).

(** [a[i] = v] for a [uint8_t] array. *)
Definition wr8 (a : list Z) (i v : Z) : list Z := <[Z.to_nat i := u8 v]> a.

(** A C++ integer used as a condition. *)
Definition truthy (x : Z) : bool := negb (x =? 0).

(** ** Constants *)

(** Timing constants, as [ir_Gree.cpp] defines them (microseconds). *)
Definition kGreeHdrMark : Z := 9000.
Definition kGreeHdrSpace : Z := 4500.
Definition kGreeBitMark : Z := 620.
Definition kGreeOneSpace : Z := 1600.
Definition kGreeZeroSpace : Z := 540.
Definition kGreeMsgSpace : Z := 19000.
Definition kGreeBlockFooter : Z := 2.
Definition kGreeBlockFooterBits : Z := 3.

(** Modelled from the spec: [kGreeStateLength] is declared in
    IRremoteESP8266.h, which is not in src/; the command record is a fixed
    8-byte sequence (spec 3). *)
Definition kGreeStateLength : Z := 8.

(** A [remote_state] array: [kGreeStateLength] entries. *)
Definition is_state (st : list Z) : Prop :=
  length st = Z.to_nat kGreeStateLength.

(** Modelled from the spec: [kGreeBits] is declared in IRremoteESP8266.h,
    which is not in src/; the canonical bit count is 64 (spec 4.4, step 2). *)
Definition kGreeBits : Z := 64.

(** Modelled from the spec: the masks and limits below are declared in
    ir_Gree.h, which is not in src/; each follows the field table of spec 3
    (mode: byte 0 bits 0-2). *)
Definition kGreeModeMask : Z := 0x07.

(** Modelled from the spec: ir_Gree.h is not in src/; power (low) is byte 0
    bit 3 (spec 3). *)
Definition kGreePower1Mask : Z := 0x08.

(** Modelled from the spec: ir_Gree.h is not in src/; fan speed is byte 0
    bits 4-5 (spec 3). *)
Definition kGreeFanMask : Z := 0x30.

(** Modelled from the spec: ir_Gree.h is not in src/; fan speeds are 0 (auto)
    to 3 (spec 3, spec 4.1). *)
Definition kGreeFanMax : Z := 3.

(** Modelled from the spec: ir_Gree.h is not in src/; the swing-vertical auto
    flag is byte 0 bit 6 (spec 3). *)
Definition kGreeSwingAutoMask : Z := 0x40.

(** Modelled from the spec: ir_Gree.h is not in src/; temperatures range over
    16-30 degrees (spec 3, spec 4.1). *)
Definition kGreeMinTemp : Z := 16.

(** Modelled from the spec: ir_Gree.h is not in src/; see [kGreeMinTemp]. *)
Definition kGreeMaxTemp : Z := 30.

(** Modelled from the spec: ir_Gree.h is not in src/; power (high) is byte 2
    bit 3 (spec 3). *)
Definition kGreePower2Mask : Z := 0x08.

(** Modelled from the spec: ir_Gree.h is not in src/; the swing-vertical
    position is byte 4 bits 0-3 (spec 3). *)
Definition kGreeSwingPosMask : Z := 0x0F.

(** The mode codes and the swing position codes are declared in ir_Gree.h as
    well.  The spec names them but gives no values, so they are parameters of
    the model. *)
Class GreeCodes : Type := {
  kGreeAuto : Z;
  kGreeCool : Z;
  kGreeDry : Z;
  kGreeFan : Z;
  kGreeHeat : Z;
  kGreeSwingLastPos : Z;
  kGreeSwingAuto : Z;
  kGreeSwingUp : Z;
  kGreeSwingMiddleUp : Z;
  kGreeSwingMiddle : Z;
  kGreeSwingMiddleDown : Z;
  kGreeSwingDown : Z;
  kGreeSwingDownAuto : Z;
  kGreeSwingMiddleAuto : Z;
  kGreeSwingUpAuto : Z
}.

Definition mode_codes {codes : GreeCodes} : list Z :=
  [kGreeAuto; kGreeDry; kGreeCool; kGreeFan; kGreeHeat].

Definition manual_swing_codes {codes : GreeCodes} : list Z :=
  [kGreeSwingUp; kGreeSwingMiddleUp; kGreeSwingMiddle; kGreeSwingMiddleDown;
   kGreeSwingDown].

Definition auto_swing_codes {codes : GreeCodes} : list Z :=
  [kGreeSwingAuto; kGreeSwingDownAuto; kGreeSwingMiddleAuto; kGreeSwingUpAuto].

(** What the code needs of the codes: the labels of one [switch] are distinct
    (C++ rejects duplicates), and every code fits the field that holds it
    (spec 3: mode in three bits, swing position in four). *)
Record codes_ok {codes : GreeCodes} : Prop := {
  mode_codes_distinct : NoDup mode_codes;
  mode_codes_fit : Forall (fun m => 0 <= m < 8) mode_codes;
  swing_codes_fit :
    Forall (fun p => 0 <= p < 16)
           (kGreeSwingLastPos :: auto_swing_codes ++ manual_swing_codes)
}.

(** A choice of codes, used to run the model on concrete inputs. *)
Definition sample_codes : GreeCodes := {|
  kGreeAuto := 0; kGreeCool := 1; kGreeDry := 2; kGreeFan := 3; kGreeHeat := 4;
  kGreeSwingLastPos := 0; kGreeSwingAuto := 1; kGreeSwingUp := 2;
  kGreeSwingMiddleUp := 3; kGreeSwingMiddle := 4; kGreeSwingMiddleDown := 5;
  kGreeSwingDown := 6; kGreeSwingDownAuto := 7; kGreeSwingMiddleAuto := 9;
  kGreeSwingUpAuto := 11
|}.

(** [IRKelvinatorAC::calcBlockChecksum] lives in ir_Kelvinator.cpp, which is
    not in src/; the spec (4.2) treats it as a black box, so it is a parameter
    of the model: the array and the length in, a [uint8_t] out. *)
Class BlockChecksum : Type := {
  calcBlockChecksum : list Z -> Z -> Z
}.

(** ** The state class [IRGreeAC]

    The object is its [remote_state] array; a method that mutates the object
    takes the array and returns the new one. *)

Section IRGreeAC.
Context {codes : GreeCodes} {cs : BlockChecksum}.

Definition stateReset (remote_state : list Z) : list Z :=
  let st := foldl (fun s i => wr8 s (Z.of_nat i) 0x0) remote_state
                  (seq 0 (Z.to_nat kGreeStateLength)) in
  let st := wr8 st 1 0x09 in
  let st := wr8 st 2 0x20 in
  let st := wr8 st 3 0x50 in
  let st := wr8 st 5 0x20 in
  wr8 st 7 0x50.

(** [length] is at least 1 in every call: for 0 the C++ code indexes the
    array at -1, which the model does not cover. *)
Definition checksum (remote_state : list Z) (length : Z) : list Z :=
  let sum := calcBlockChecksum remote_state length in
  wr8 remote_state (length - 1)
      (Z.lor (Z.shiftl sum 4) (Z.land (rd remote_state (length - 1)) 0xF)).

(** [fixup] calls [checksum()] without an argument.  The default is declared
    in ir_Gree.h, which is not in src/; the checksum field is in the last byte
    of the record (spec 3; spec 4.2), so the length is [kGreeStateLength]. *)
Definition fixup (remote_state : list Z) : list Z :=
  checksum remote_state kGreeStateLength.

Definition getRaw (remote_state : list Z) : list Z * list Z :=
  let st := fixup remote_state in (st, st).

Definition setRaw (remote_state new_code : list Z) : list Z :=
  foldl (fun s i => wr8 s (Z.of_nat i) (rd new_code (Z.of_nat i)))
        remote_state (seq 0 (Z.to_nat kGreeStateLength)).

Definition validChecksum (state : list Z) (length : Z) : bool :=
  if Z.shiftr (rd state (length - 1)) 4 =? calcBlockChecksum state length
  then true else false.

Definition on (remote_state : list Z) : list Z :=
  let st := wr8 remote_state 0 (Z.lor (rd remote_state 0) kGreePower1Mask) in
  wr8 st 2 (Z.lor (rd st 2) kGreePower2Mask).

Definition off (remote_state : list Z) : list Z :=
  let st :=
    wr8 remote_state 0 (Z.land (rd remote_state 0) (Z.lnot kGreePower1Mask)) in
  wr8 st 2 (Z.land (rd st 2) (Z.lnot kGreePower2Mask)).

Definition setPower (remote_state : list Z) (on_ : bool) : list Z :=
  if on_ then on remote_state else off remote_state.

Definition getPower (remote_state : list Z) : bool :=
  truthy (Z.land (rd remote_state 0) kGreePower1Mask)
  && truthy (Z.land (rd remote_state 2) kGreePower2Mask).

Definition getMode (remote_state : list Z) : Z :=
  Z.land (rd remote_state 0) kGreeModeMask.

Definition setTemp (remote_state : list Z) (temp : Z) : list Z :=
  let new_temp := Z.max kGreeMinTemp temp in
  let new_temp := Z.min kGreeMaxTemp new_temp in
  let new_temp := if getMode remote_state =? kGreeAuto then 25 else new_temp in
  wr8 remote_state 1
      (Z.lor (Z.land (rd remote_state 1) 0xF0) (new_temp - kGreeMinTemp)).

Definition getTemp (remote_state : list Z) : Z :=
  u8 (Z.land (rd remote_state 1) 0xF + kGreeMinTemp).

Definition setFan (remote_state : list Z) (speed : Z) : list Z :=
  let fan := Z.min kGreeFanMax speed in
  let fan := if getMode remote_state =? kGreeDry then 1 else fan in
  let st :=
    wr8 remote_state 0 (Z.land (rd remote_state 0) (Z.lnot kGreeFanMask)) in
  wr8 st 0 (Z.lor (rd st 0) (Z.shiftl fan 4)).

Definition getFan (remote_state : list Z) : Z :=
  Z.shiftr (Z.land (rd remote_state 0) kGreeFanMask) 4.

(** The [switch] is read top to bottom; its labels are distinct
    ([codes_ok]), so the order of the tests does not matter. *)
Definition setMode (remote_state : list Z) (new_mode : Z) : list Z :=
  let mode := new_mode in
  let '(st, mode) :=
    if mode =? kGreeAuto then (setTemp remote_state 25, mode)
    else if mode =? kGreeDry then (setFan remote_state 1, mode)
    else if (mode =? kGreeCool) || (mode =? kGreeFan) || (mode =? kGreeHeat)
         then (remote_state, mode)
    else (remote_state, kGreeAuto) in
  let st := wr8 st 0 (Z.land (rd st 0) (Z.lnot kGreeModeMask)) in
  wr8 st 0 (Z.lor (rd st 0) mode).

Definition setSwingVertical (remote_state : list Z) (automatic : bool)
           (position : Z) : list Z :=
  let st :=
    wr8 remote_state 0
        (Z.land (rd remote_state 0) (Z.lnot kGreeSwingAutoMask)) in
  let st := wr8 st 0 (Z.lor (rd st 0) (Z.shiftl (Z.b2z automatic) 6)) in
  let new_position := position in
  let new_position :=
    if negb automatic then
      if (position =? kGreeSwingUp) || (position =? kGreeSwingMiddleUp)
         || (position =? kGreeSwingMiddle)
         || (position =? kGreeSwingMiddleDown)
         || (position =? kGreeSwingDown)
      then new_position else kGreeSwingLastPos
    else
      if (position =? kGreeSwingAuto) || (position =? kGreeSwingDownAuto)
         || (position =? kGreeSwingMiddleAuto)
         || (position =? kGreeSwingUpAuto)
      then new_position else kGreeSwingAuto in
  let st := wr8 st 4 (Z.land (rd st 4) (Z.lnot kGreeSwingPosMask)) in
  wr8 st 4 (Z.lor (rd st 4) new_position).

Definition getSwingVerticalAuto (remote_state : list Z) : bool :=
  truthy (Z.land (rd remote_state 0) kGreeSwingAutoMask).

Definition getSwingVerticalPosition (remote_state : list Z) : Z :=
  Z.land (rd remote_state 4) kGreeSwingPosMask.

End IRGreeAC.

(** ** Transmission: [IRsend]

    A transmission is the sequence of pulses handed to the emitter, oldest
    first (spec 3, Pulse Sequence: duration and polarity). *)

Inductive pulse : Type :=
| Mark (usec : Z)
| Space (usec : Z).

Definition duration (p : pulse) : Z :=
  match p with Mark d => d | Space d => d end.

(** Modelled from the spec: [IRsend::sendData] is defined in IRsend.cpp,
    which is not in src/.  It is the emitter's [emitBits] (spec 6): each bit
    is a mark followed by a space, the pair chosen by the bit's value (spec
    4.3, step 2); with [MSBfirst = false] the least significant bit goes
    first. *)
Fixpoint sendData_lsb (onemark onespace zeromark zerospace data : Z)
         (nbits : nat) : list pulse :=
  match nbits with
  | O => []
  | S n =>
      (if Z.odd data then [Mark onemark; Space onespace]
       else [Mark zeromark; Space zerospace])
      ++ sendData_lsb onemark onespace zeromark zerospace (Z.shiftr data 1) n
  end.

(** Modelled from the spec: the [MSBfirst = true] order of [sendData]; no call
    of [ir_Gree.cpp] through [sendGeneric] uses it. *)
Fixpoint sendData_msb (onemark onespace zeromark zerospace data : Z)
         (nbits : nat) : list pulse :=
  match nbits with
  | O => []
  | S n =>
      (if Z.testbit data (Z.of_nat n) then [Mark onemark; Space onespace]
       else [Mark zeromark; Space zerospace])
      ++ sendData_msb onemark onespace zeromark zerospace data n
  end.

(** Modelled from the spec: see [sendData_lsb]. *)
Definition sendData (onemark onespace zeromark zerospace data nbits : Z)
           (MSBfirst : bool) : list pulse :=
  if MSBfirst
  then sendData_msb onemark onespace zeromark zerospace data (Z.to_nat nbits)
  else sendData_lsb onemark onespace zeromark zerospace data (Z.to_nat nbits).

(** Modelled from the spec: one message of [IRsend::sendGeneric] (IRsend.cpp
    is not in src/), without its repeat loop: header, data, footer.  A header
    or footer whose durations are 0 is not sent: the call sites say so ("No
    Header", "No Footer") and spec 4.3 has no gap after block 1.  [send_bits]
    is the data part, which differs between the two overloads. *)
Definition sendGeneric_frame (headermark headerspace footermark gap : Z)
           (send_bits : list pulse) : list pulse :=
  (if headermark =? 0 then [] else [Mark headermark])
  ++ (if headerspace =? 0 then [] else [Space headerspace])
  ++ send_bits
  ++ (if footermark =? 0 then [] else [Mark footermark])
  ++ (if gap =? 0 then [] else [Space gap]).

(** Modelled from the spec: the overload of [IRsend::sendGeneric] that takes
    a byte array (IRsend.cpp is not in src/): the bytes in array order, eight
    bits each (spec 4.3, step 2), the whole message [repeat + 1] times. *)
Definition sendGeneric_bytes
           (headermark headerspace onemark onespace zeromark zerospace
            footermark gap : Z)
           (dataptr : list Z) (nbytes : Z) (frequency : Z) (MSBfirst : bool)
           (repeat_ : Z) (dutycycle : Z) : list pulse :=
  mjoin (replicate (Z.to_nat repeat_ + 1)
    (sendGeneric_frame headermark headerspace footermark gap
       (mjoin (map (fun i => sendData onemark onespace zeromark zerospace
                                      (rd dataptr (Z.of_nat i)) 8 MSBfirst)
                   (seq 0 (Z.to_nat nbytes)))))).

(** Modelled from the spec: the overload of [IRsend::sendGeneric] that takes
    the data as one integer of [nbits] bits (IRsend.cpp is not in src/). *)
Definition sendGeneric_value
           (headermark headerspace onemark onespace zeromark zerospace
            footermark gap : Z)
           (data : Z) (nbits : Z) (frequency : Z) (MSBfirst : bool)
           (repeat_ : Z) (dutycycle : Z) : list pulse :=
  mjoin (replicate (Z.to_nat repeat_ + 1)
    (sendGeneric_frame headermark headerspace footermark gap
       (sendData onemark onespace zeromark zerospace data nbits MSBfirst))).

(** One pass of the body of the loop of [sendGree]. *)
Definition sendGree_message (data : list Z) (nbytes : Z) : list pulse :=
  (* Block #1 *)
  sendGeneric_bytes kGreeHdrMark kGreeHdrSpace kGreeBitMark kGreeOneSpace
                    kGreeBitMark kGreeZeroSpace 0 0
                    data 4 38 false 0 50
  (* Footer #1 *)
  ++ sendGeneric_value 0 0 kGreeBitMark kGreeOneSpace kGreeBitMark
                       kGreeZeroSpace kGreeBitMark kGreeMsgSpace
                       2 (* 0b010 *) 3 38 false 0 50
  (* Block #2 *)
  ++ sendGeneric_bytes 0 0 kGreeBitMark kGreeOneSpace kGreeBitMark
                       kGreeZeroSpace kGreeBitMark kGreeMsgSpace
                       (drop 4 data) (nbytes - 4) 38 false 0 50.

(** [IRsend::sendGree] (the byte array overload).  The result is what was
    emitted.  The loop counter [r] is a [uint16_t], so for [repeat = 65535]
    the test [r <= repeat] never fails and the call does not return: [None]. *)
Definition sendGree (data : list Z) (nbytes : Z) (repeat_ : Z)
  : option (list pulse) :=
  if nbytes <? kGreeStateLength then Some []
  else if repeat_ =? 65535 then None
  else Some (mjoin (replicate (Z.to_nat repeat_ + 1)
                              (sendGree_message data nbytes))).

(** [IRGreeAC::send]: fix the checksum up, then transmit. *)
Definition send {cs : BlockChecksum} (remote_state : list Z) (repeat_ : Z)
  : list Z * option (list pulse) :=
  let st := fixup remote_state in
  (st, sendGree st kGreeStateLength repeat_).

(** ** Reception: [IRrecv] *)

Inductive decode_type_t : Type := UNKNOWN | GREE.

(** The fields of [decode_results] that [decodeGree] reads or writes. *)
Record decode_results : Type := mk_results {
  decode_type : decode_type_t;
  state : list Z;
  bits : Z;
  rawbuf : list Z;
  rawlen : Z
}.

Record match_result_t : Type := mk_match {
  success : bool;
  data : Z;
  used : Z
}.

(** The pulse-matching collaborator (spec 6), the part of [IRrecv] that
    [decodeGree] calls.  IRrecv.h and IRrecv.cpp are not in src/ and the spec
    gives contracts only, so the matchers and the layout constants are
    parameters of [decodeGree].  [matchMark], [matchSpace] and [matchAtLeast]
    take the measured and the expected duration; [matchData] takes the buffer
    from the current entry on, the number of bits, the four bit timings,
    tolerance, margin and [MSBfirst]. *)
Class IRrecvOps : Type := {
  kStartOffset : Z;
  kHeader : Z;
  kFooter : Z;
  kTolerance : Z;
  kMarkExcess : Z;
  matchMark : Z -> Z -> bool;
  matchSpace : Z -> Z -> bool;
  matchAtLeast : Z -> Z -> bool;
  matchData : list Z -> Z -> Z -> Z -> Z -> Z -> Z -> Z -> bool -> match_result_t
}.

(** The [return] statement through which a call of [decodeGree] leaves; the
    names follow spec 7.  The C++ function reports [Success] as [true] and
    all the others as [false]. *)
Inductive exit_t : Type :=
| Success
| TooShort
| StrictMismatch
| HeaderMark
| HeaderSpace
| Block1Error
| FooterError
| FooterMismatch
| GapMark
| GapSpace
| Block2Error
| TrailMark
| TrailSpace
| LengthError
| ChecksumError.

Definition is_success (e : exit_t) : bool :=
  match e with Success => true | _ => false end.

Definition set_state (results : decode_results) (st : list Z) : decode_results :=
  mk_results (decode_type results) st (bits results) (rawbuf results)
             (rawlen results).

(** [for (i = 0; i < count; i++, data >>= 8) state[pos + i] = data & 0xFF;] *)
Fixpoint record_block (count : nat) (st : list Z) (pos data : Z) : list Z :=
  match count with
  | O => st
  | S n => record_block n (wr8 st pos (Z.land data 0xFF)) (pos + 1)
                        (Z.shiftr data 8)
  end.

Section IRrecv.
Context {ops : IRrecvOps} {cs : BlockChecksum}.

(** [matchData(&(results->rawbuf[offset]), nbits, kGreeBitMark,
    kGreeOneSpace, kGreeBitMark, kGreeZeroSpace, kTolerance, kMarkExcess,
    false)], the call [decodeGree] makes three times. *)
Definition matchGreeData (results : decode_results) (offset nbits : Z)
  : match_result_t :=
  matchData (drop (Z.to_nat offset) (rawbuf results)) nbits kGreeBitMark
            kGreeOneSpace kGreeBitMark kGreeZeroSpace kTolerance kMarkExcess
            false.

(** The body of [decodeGree], with the [return] it leaves through.  The call
    [validChecksum(results->state)] has no length argument; as in [fixup] it
    is [kGreeStateLength]. *)
Definition decodeGree_run (results : decode_results) (nbits : Z)
           (strict : bool) : exit_t * decode_results :=
  if rawlen results
     <? 2 * (nbits + kGreeBlockFooterBits) + (kHeader + kFooter + 1)
  then (TooShort, results)
  else if strict && negb (nbits =? kGreeBits)
  then (StrictMismatch, results)
  else
  let offset := kStartOffset in
  let state_pos := 0 in
  (* Header *)
  if negb (matchMark (rd (rawbuf results) offset) kGreeHdrMark)
  then (HeaderMark, results) else
  let offset := u16 (offset + 1) in
  if negb (matchSpace (rd (rawbuf results) offset) kGreeHdrSpace)
  then (HeaderSpace, results) else
  let offset := u16 (offset + 1) in
  (* Data Block #1 (32 bits) *)
  let data_result := matchGreeData results offset 32 in
  if negb (success data_result) then (Block1Error, results) else
  let data_ := u32 (data data_result) in
  let offset := u16 (offset + used data_result) in
  (* Record Data Block #1 in the state. *)
  let results :=
    set_state results (record_block 4 (state results) (state_pos + 0) data_) in
  let state_pos := state_pos + 4 in
  (* Block #1 footer (3 bits, B010) *)
  let data_result := matchGreeData results offset kGreeBlockFooterBits in
  if negb (success data_result) then (FooterError, results) else
  if negb (data data_result =? kGreeBlockFooter)
  then (FooterMismatch, results) else
  let offset := u16 (offset + used data_result) in
  (* Inter-block gap. *)
  if negb (matchMark (rd (rawbuf results) offset) kGreeBitMark)
  then (GapMark, results) else
  let offset := u16 (offset + 1) in
  if negb (matchSpace (rd (rawbuf results) offset) kGreeMsgSpace)
  then (GapSpace, results) else
  let offset := u16 (offset + 1) in
  (* Data Block #2 (32 bits) *)
  let data_result := matchGreeData results offset 32 in
  if negb (success data_result) then (Block2Error, results) else
  let data_ := u32 (data data_result) in
  let offset := u16 (offset + used data_result) in
  (* Record Data Block #2 in the state. *)
  let results :=
    set_state results (record_block 4 (state results) (state_pos + 0) data_) in
  let state_pos := state_pos + 4 in
  (* Footer. *)
  if negb (matchMark (rd (rawbuf results) offset) kGreeBitMark)
  then (TrailMark, results) else
  let offset := u16 (offset + 1) in
  if (offset <=? rawlen results)
     && negb (matchAtLeast (rd (rawbuf results) offset) kGreeMsgSpace)
  then (TrailSpace, results) else
  (* Compliance *)
  if strict && negb (state_pos =? kGreeStateLength)
  then (LengthError, results) else
  if strict && negb (validChecksum (state results) kGreeStateLength)
  then (ChecksumError, results) else
  (* Success *)
  (Success,
   mk_results GREE (state results) (u16 (state_pos * 8)) (rawbuf results)
              (rawlen results)).

(** [IRrecv::decodeGree]: the boolean the caller sees, and the results
    object as the call leaves it. *)
Definition decodeGree (results : decode_results) (nbits : Z) (strict : bool)
  : bool * decode_results :=
  let '(e, results') := decodeGree_run results nbits strict in
  (is_success e, results').

(** *** The places [decodeGree] looks at

    The raw buffer is never written, so the offsets the decoder reaches and
    what it matches there are functions of the results object it is given. *)

Definition off_block1 : Z := u16 (u16 (kStartOffset + 1) + 1).

Definition block1 (results : decode_results) : match_result_t :=
  matchGreeData results off_block1 32.

Definition off_footer (results : decode_results) : Z :=
  u16 (off_block1 + used (block1 results)).

Definition footer (results : decode_results) : match_result_t :=
  matchGreeData results (off_footer results) kGreeBlockFooterBits.

Definition off_gap (results : decode_results) : Z :=
  u16 (off_footer results + used (footer results)).

Definition off_block2 (results : decode_results) : Z :=
  u16 (u16 (off_gap results + 1) + 1).

Definition block2 (results : decode_results) : match_result_t :=
  matchGreeData results (off_block2 results) 32.

Definition off_trail (results : decode_results) : Z :=
  u16 (off_block2 results + used (block2 results)).

(** The framing checks, in the order of spec 4.4 (steps 1 and 3 to 8). *)
Definition long_enough (results : decode_results) (nbits : Z) : bool :=
  negb (rawlen results
        <? 2 * (nbits + kGreeBlockFooterBits) + (kHeader + kFooter + 1)).

Definition header_ok (results : decode_results) : bool :=
  matchMark (rd (rawbuf results) kStartOffset) kGreeHdrMark
  && matchSpace (rd (rawbuf results) (u16 (kStartOffset + 1))) kGreeHdrSpace.

Definition footer_ok (results : decode_results) : bool :=
  success (footer results) && (data (footer results) =? kGreeBlockFooter).

Definition gap_ok (results : decode_results) : bool :=
  matchMark (rd (rawbuf results) (off_gap results)) kGreeBitMark
  && matchSpace (rd (rawbuf results) (u16 (off_gap results + 1)))
                kGreeMsgSpace.

Definition trailer_ok (results : decode_results) : bool :=
  matchMark (rd (rawbuf results) (off_trail results)) kGreeBitMark
  && negb ((u16 (off_trail results + 1) <=? rawlen results)
           && negb (matchAtLeast
                      (rd (rawbuf results) (u16 (off_trail results + 1)))
                      kGreeMsgSpace)).

Definition framing_ok (results : decode_results) (nbits : Z) : bool :=
  long_enough results nbits && header_ok results
  && success (block1 results) && footer_ok results && gap_ok results
  && success (block2 results) && trailer_ok results.

(** The record both blocks leave in [results->state]. *)
Definition reconstructed (results : decode_results) : list Z :=
  record_block 4
    (record_block 4 (state results) 0 (u32 (data (block1 results))))
    4 (u32 (data (block2 results))).

End IRrecv.

(** ** The collaborators, as the spec describes them *)

Definition u64 (x : Z) : Z := x mod 2 ^ 64.

(** The value of a bit string whose first bit is the least significant. *)
Fixpoint pack_lsb (bs : list bool) : Z :=
  match bs with
  | [] => 0
  | b :: bs' => Z.b2z b + 2 * pack_lsb bs'
  end.

Section Matcher.
Variables mark_ok space_ok : Z -> Z -> bool.

(** Modelled from the spec: the bit loop of [IRrecv::matchData] (IRrecv.cpp
    is not in src/), the collaborator's [matchBits] of spec 6.  Each bit
    takes a mark and a space from the buffer; the pair is a one or a zero
    according to the timings it matches, and a pair that matches neither is
    a bit mismatch (spec 4.4, step 4). *)
Fixpoint match_bits (buf : list Z) (nbits : nat)
         (onemark onespace zeromark zerospace : Z) : option (list bool) :=
  match nbits with
  | O => Some []
  | S n =>
      if mark_ok (rd buf 0) onemark && space_ok (rd buf 1) onespace
      then cons true <$> match_bits (drop 2 buf) n onemark onespace zeromark
                                    zerospace
      else if mark_ok (rd buf 0) zeromark && space_ok (rd buf 1) zerospace
      then cons false <$> match_bits (drop 2 buf) n onemark onespace zeromark
                                     zerospace
      else None
  end.

(** Modelled from the spec: [IRrecv::matchData] (IRrecv.cpp is not in
    src/): success, the decoded value and the number of buffer entries
    consumed (spec 6); with [MSBfirst = false] the first bit matched is the
    least significant (spec 4.4, step 4: LSB-first packing). *)
Definition matchData_model (buf : list Z)
           (nbits onemark onespace zeromark zerospace tolerance excess : Z)
           (MSBfirst : bool) : match_result_t :=
  match match_bits buf (Z.to_nat nbits) onemark onespace zeromark zerospace
  with
  | Some bs =>
      mk_match true (u64 (pack_lsb (if MSBfirst then rev bs else bs)))
               (u16 (2 * nbits))
  | None => mk_match false 0 0
  end.
End Matcher.

(** Modelled from the spec: the capture collaborator (IRrecv.h and IRrecv.cpp
    are not in src/) over given comparators.  A header and a footer are a
    mark and a space each, two entries; entry 0 of the raw buffer holds the
    gap before the message, so the message starts at entry 1: together the
    [header + footer + 1] of the minimum length (spec 4.4, step 1). *)
Definition model_ops (tolerance excess : Z)
           (mark_ok space_ok at_least : Z -> Z -> bool) : IRrecvOps := {|
  kStartOffset := 1;
  kHeader := 2;
  kFooter := 2;
  kTolerance := tolerance;
  kMarkExcess := excess;
  matchMark := mark_ok;
  matchSpace := space_ok;
  matchAtLeast := at_least;
  matchData := matchData_model mark_ok space_ok
|}.

(** What a round trip needs of the comparators: a pulse of exactly the
    nominal duration matches it, and the space of a zero bit is not taken for
    the space of a one bit. *)
Record comparators_ok (mark_ok space_ok at_least : Z -> Z -> bool) : Prop := {
  cmp_hdr_mark : mark_ok kGreeHdrMark kGreeHdrMark = true;
  cmp_hdr_space : space_ok kGreeHdrSpace kGreeHdrSpace = true;
  cmp_bit_mark : mark_ok kGreeBitMark kGreeBitMark = true;
  cmp_one_space : space_ok kGreeOneSpace kGreeOneSpace = true;
  cmp_zero_space : space_ok kGreeZeroSpace kGreeZeroSpace = true;
  cmp_zero_not_one : space_ok kGreeZeroSpace kGreeOneSpace = false;
  cmp_msg_space : space_ok kGreeMsgSpace kGreeMsgSpace = true;
  cmp_msg_at_least : at_least kGreeMsgSpace kGreeMsgSpace = true
}.

(** Modelled from the spec: a tolerance-aware comparator (spec 4.4, step 3;
    spec 6): the measured duration lies within [tolerance] percent of the
    expected one, widened by [margin] microseconds. *)
Definition within (tolerance margin measured expected : Z) : bool :=
  (expected * (100 - tolerance) - 100 * margin <=? 100 * measured)
  && (100 * measured <=? expected * (100 + tolerance) + 100 * margin).

(** Modelled from the spec: [matchAtLeast] (spec 6; spec 4.4, step 8): the
    measured duration only has to reach the minimum, with the same
    allowance. *)
Definition reaches (tolerance margin measured minimum : Z) : bool :=
  minimum * (100 - tolerance) - 100 * margin <=? 100 * measured.

Definition tolerant_ops (tolerance margin : Z) : IRrecvOps :=
  model_ops tolerance margin (within tolerance margin)
            (within tolerance margin) (reaches tolerance margin).

(** Modelled from the spec: what the receiver captures of a transmission:
    the durations of the pulses in order, mark and space alternating (spec 3;
    spec 6), after the entry for the gap that precedes the message.  [st] is
    the content of the state buffer before decoding. *)
Definition capture (tx : list pulse) (st : list Z) : decode_results :=
  let raw := 0 :: map duration tx in
  mk_results UNKNOWN st 0 raw (Z.of_nat (length raw)).

(** Modelled from the spec: an instance of the checksum contract of spec 4.2
    ([IRKelvinatorAC::calcBlockChecksum] is in ir_Kelvinator.cpp, which is
    not in src/): the sum of the split nibbles of all bytes except the top
    nibble of the last one, kept to four bits. *)
Definition nibble_sum : BlockChecksum := {|
  calcBlockChecksum := fun block length =>
    Z.land
      (foldr (fun i acc =>
                Z.land (rd block (Z.of_nat i)) 0xF
                + Z.shiftr (rd block (Z.of_nat i)) 4 + acc)
             (Z.land (rd block (length - 1)) 0xF)
             (seq 0 (Z.to_nat (length - 1))))
      0xF
|}.

(** The contract of spec 4.2: the result is a 4-bit value, and it is computed
    from [bytes[0..len-1]] without the top nibble of the last byte. *)
Record checksum_contract {cs : BlockChecksum} : Prop := {
  checksum_nibble : forall block len, 0 <= calcBlockChecksum block len < 16;
  checksum_footprint : forall block block' len,
    0 < len ->
    (forall i, 0 <= i < len - 1 -> rd block i = rd block' i) ->
    Z.land (rd block (len - 1)) 0xF = Z.land (rd block' (len - 1)) 0xF ->
    calcBlockChecksum block len = calcBlockChecksum block' len
}.

(** The canonical state after [stateReset], and the same with its checksum
    fixed up under [nibble_sum]; both are used to run the model. *)
Definition reset_state : list Z :=
  Eval cbv in stateReset (replicate 8 0).

Definition sample_record : list Z :=
  Eval cbv in @fixup nibble_sum reset_state.

(** ** What a message looks like on the wire *)

(** The [n] low bits of [v], least significant first. *)
Fixpoint lsb_bits (v : Z) (n : nat) : list bool :=
  match n with
  | O => []
  | S n' => Z.odd v :: lsb_bits (Z.shiftr v 1) n'
  end.

(** The durations of a bit string sent with the Gree bit timings. *)
Fixpoint bit_timings (bs : list bool) : list Z :=
  match bs with
  | [] => []
  | b :: bs' =>
      kGreeBitMark :: (if b then kGreeOneSpace else kGreeZeroSpace)
      :: bit_timings bs'
  end.

(** The footer 0b010, least significant bit first. *)
Definition footer_bits : list bool := [false; true; false].

(** The durations of a whole message (spec 4.3), from the back: the trailing
    gap, block 2, the inter-block gap, the 3-bit footer, and in front of them
    the header and block 1. *)
Definition after_block2 : list Z := [kGreeBitMark; kGreeMsgSpace].

Definition after_gap (block2_bits : list bool) : list Z :=
  bit_timings block2_bits ++ after_block2.

Definition after_footer (block2_bits : list bool) : list Z :=
  kGreeBitMark :: kGreeMsgSpace :: after_gap block2_bits.

Definition after_block1 (block2_bits : list bool) : list Z :=
  bit_timings footer_bits ++ after_footer block2_bits.

Definition frame_timings (block1_bits block2_bits : list bool) : list Z :=
  kGreeHdrMark :: kGreeHdrSpace
  :: bit_timings block1_bits ++ after_block1 block2_bits.

(** A results object whose raw buffer holds one whole message after an entry
    for the preceding gap: 141 entries. *)
Definition frame_capture (pre : Z) (st : list Z)
           (block1_bits block2_bits : list bool) : decode_results :=
  mk_results UNKNOWN st 0 (pre :: frame_timings block1_bits block2_bits) 141.

(** The bits of four bytes in array order. *)
Definition block_bits (b0 b1 b2 b3 : Z) : list bool :=
  lsb_bits b0 8 ++ lsb_bits b1 8 ++ lsb_bits b2 8 ++ lsb_bits b3 8.

(** All framing checks of [decodeGree] except the one on the inter-block
    gap. *)
Definition framing_but_gap {ops : IRrecvOps} (results : decode_results) (nbits : Z)
  : bool :=
  long_enough results nbits && header_ok results
  && success (block1 results) && footer_ok results
  && success (block2 results) && trailer_ok results.

(** ** Concrete inputs *)

(** The canonical state switched to Cool under [sample_codes]. *)
Definition cool_state : list Z :=
  Eval cbv in @setMode sample_codes reset_state 1.

(** Comparators with a tolerance of 25 percent and a margin of 50 us. *)
Definition sample_ops : IRrecvOps := tolerant_ops 25 50.

(** The message for [sample_record], as [sendGree] emits it. *)
Definition sample_tx : list pulse :=
  default [] (sendGree sample_record kGreeStateLength 0).

(** The message for the state right after [stateReset], whose checksum
    nibble has not been fixed up. *)
Definition stale_tx : list pulse :=
  default [] (sendGree reset_state kGreeStateLength 0).

(** [sample_tx] with the first footer bit sent as a one: the footer reads
    0b011. *)
Definition bad_footer_tx : list pulse :=
  <[67%nat := Space kGreeOneSpace]> sample_tx.

(** [sample_tx] with an inter-block gap of 40000 us instead of 19000 us. *)
Definition long_gap_tx : list pulse :=
  <[73%nat := Space 40000]> sample_tx.

(** ** The other members of [IRGreeAC] *)

(** Modelled from the spec: ir_Gree.h is not in src/; light is byte 2 bit 5
    (spec 3), the bit [setLight] writes with [on << 5]. *)
Definition kGreeLightMask : Z := 0x20.

(** Modelled from the spec: ir_Gree.h is not in src/; XFan is byte 2 bit 7
    (spec 3), the bit [setXFan] writes with [on << 7]. *)
Definition kGreeXfanMask : Z := 0x80.

(** Modelled from the spec: ir_Gree.h is not in src/; sleep is byte 0 bit 7
    (spec 3), the bit [setSleep] writes with [on << 7]. *)
Definition kGreeSleepMask : Z := 0x80.

(** Modelled from the spec: ir_Gree.h is not in src/; turbo is byte 2 bit 4
    (spec 3), the bit [setTurbo] writes with [on << 4]. *)
Definition kGreeTurboMask : Z := 0x10.

(** Modelled from the spec: ir_Gree.h is not in src/; fan speed 0 is
    automatic (spec 3; the comment of [setFan]: "0 is auto"). *)
Definition kGreeFanAuto : Z := 0.

(** Modelled from the spec: ir_Gree.h is not in src/; the speeds proper are
    1 to 3 (the comment of [setFan]: "1-3 is the speed"), so the lowest
    is 1. *)
Definition kGreeFanMin : Z := 1.

Definition setLight (remote_state : list Z) (on_ : bool) : list Z :=
  let st :=
    wr8 remote_state 2 (Z.land (rd remote_state 2) (Z.lnot kGreeLightMask)) in
  wr8 st 2 (Z.lor (rd st 2) (Z.shiftl (Z.b2z on_) 5)).

Definition getLight (remote_state : list Z) : bool :=
  truthy (Z.land (rd remote_state 2) kGreeLightMask).

Definition setXFan (remote_state : list Z) (on_ : bool) : list Z :=
  let st :=
    wr8 remote_state 2 (Z.land (rd remote_state 2) (Z.lnot kGreeXfanMask)) in
  wr8 st 2 (Z.lor (rd st 2) (Z.shiftl (Z.b2z on_) 7)).

Definition getXFan (remote_state : list Z) : bool :=
  truthy (Z.land (rd remote_state 2) kGreeXfanMask).

Definition setSleep (remote_state : list Z) (on_ : bool) : list Z :=
  let st :=
    wr8 remote_state 0 (Z.land (rd remote_state 0) (Z.lnot kGreeSleepMask)) in
  wr8 st 0 (Z.lor (rd st 0) (Z.shiftl (Z.b2z on_) 7)).

Definition getSleep (remote_state : list Z) : bool :=
  truthy (Z.land (rd remote_state 0) kGreeSleepMask).

Definition setTurbo (remote_state : list Z) (on_ : bool) : list Z :=
  let st :=
    wr8 remote_state 2 (Z.land (rd remote_state 2) (Z.lnot kGreeTurboMask)) in
  wr8 st 2 (Z.lor (rd st 2) (Z.shiftl (Z.b2z on_) 4)).

Definition getTurbo (remote_state : list Z) : bool :=
  truthy (Z.land (rd remote_state 2) kGreeTurboMask).

(** One call of a setter of the class, with its arguments. *)
Inductive setter : Type :=
| SetPower (on_ : bool)
| SetTemp (temp : Z)
| SetFan (speed : Z)
| SetMode (new_mode : Z)
| SetLight (on_ : bool)
| SetXFan (on_ : bool)
| SetSleep (on_ : bool)
| SetTurbo (on_ : bool)
| SetSwingVertical (automatic : bool) (position : Z).

Definition call {codes : GreeCodes} (c : setter) (remote_state : list Z)
  : list Z :=
  match c with
  | SetPower b => setPower remote_state b
  | SetTemp t => setTemp remote_state t
  | SetFan s => setFan remote_state s
  | SetMode m => setMode remote_state m
  | SetLight b => setLight remote_state b
  | SetXFan b => setXFan remote_state b
  | SetSleep b => setSleep remote_state b
  | SetTurbo b => setTurbo remote_state b
  | SetSwingVertical a p => setSwingVertical remote_state a p
  end.

(** The arguments are values of the parameter types ([uint8_t] where the
    setter takes one), and a mode is one of the five codes. *)
Definition setter_ok {codes : GreeCodes} (c : setter) : Prop :=
  match c with
  | SetTemp t => is_u8 t
  | SetFan s => is_u8 s
  | SetMode m => m ∈ mode_codes
  | SetSwingVertical _ p => is_u8 p
  | _ => True
  end.

(** The two locks of the class: Auto keeps 25 degrees, Dry keeps fan speed 1
    (the comments in [setMode] and [setFan]). *)
Definition locks {codes : GreeCodes} (remote_state : list Z) : Prop :=
  (getMode remote_state = kGreeAuto -> getTemp remote_state = 25)
  /\ (getMode remote_state = kGreeDry -> getFan remote_state = 1).

(** What the getters of the class read off a state, in one tuple: power,
    mode, temperature, fan, light, XFan, sleep, turbo, swing-vertical auto
    flag and swing-vertical position. *)
Definition fields (remote_state : list Z)
  : bool * Z * Z * Z * bool * bool * bool * bool * bool * Z :=
  (getPower remote_state, getMode remote_state, getTemp remote_state,
   getFan remote_state, getLight remote_state, getXFan remote_state,
   getSleep remote_state, getTurbo remote_state,
   getSwingVerticalAuto remote_state, getSwingVerticalPosition remote_state).

(** ** The other overload of [sendGree] *)

(** Modelled from the spec: [IRsend::mark] is defined in IRsend.cpp, which
    is not in src/; it is the emitter's [emitMark] (spec 6). *)
Definition mark (usec : Z) : list pulse := [Mark usec].

(** Modelled from the spec: [IRsend::space] is defined in IRsend.cpp, which
    is not in src/; it is the emitter's [emitSpace] (spec 6). *)
Definition space (usec : Z) : list pulse := [Space usec].

(** [for (int16_t i = 8; i <= nbits; i += 8) ...], the data loop of
    [sendGree(uint64_t, ...)]; [fuel] bounds the number of passes.  The
    footer is sent by [sendData(..., 0b010, 3)] without the [MSBfirst]
    argument; its default is declared in IRsend.h, which is not in src/, so
    it is the parameter [default_MSBfirst]. *)
Fixpoint sendGree64_data (default_MSBfirst : bool) (fuel : nat)
         (i data nbits : Z) : list pulse :=
  match fuel with
  | O => []
  | S fuel' =>
      if i <=? nbits then
        sendData kGreeBitMark kGreeOneSpace kGreeBitMark kGreeZeroSpace
                 (Z.land (Z.shiftr data (nbits - i)) 0xFF) 8 false
        ++ (if i =? nbits / 2 then
              (* Send the mid-message Footer. *)
              sendData kGreeBitMark kGreeOneSpace kGreeBitMark kGreeZeroSpace
                       2 (* 0b010 *) 3 default_MSBfirst
              ++ mark kGreeBitMark ++ space kGreeMsgSpace
            else [])
        ++ sendGree64_data default_MSBfirst fuel' (i + 8) data nbits
      else []
  end.

(** One pass of the repeat loop of [sendGree(uint64_t, ...)]. *)
Definition sendGree64_message (default_MSBfirst : bool) (data nbits : Z)
  : list pulse :=
  (* Header *)
  mark kGreeHdrMark ++ space kGreeHdrSpace
  (* Data *)
  ++ sendGree64_data default_MSBfirst (Z.to_nat (nbits / 8) + 1) 8 data nbits
  (* Footer *)
  ++ mark kGreeBitMark ++ space kGreeMsgSpace.

(** [IRsend::sendGree] (the [uint64_t] overload); as for the other overload,
    [None] stands for the call that does not return.  [enableIROut(38)] sets
    the carrier, which a list of pulses does not record. *)
Definition sendGree64 (default_MSBfirst : bool) (data nbits repeat_ : Z)
  : option (list pulse) :=
  if negb (nbits =? kGreeBits) then Some []
  else if repeat_ =? 65535 then None
  else Some (mjoin (replicate (Z.to_nat repeat_ + 1)
                              (sendGree64_message default_MSBfirst data nbits))).

(** The eight bytes of a 64-bit value, most significant first. *)
Definition be_bytes (data : Z) : list Z :=
  map (fun k => Z.land (Z.shiftr data (64 - 8 * (Z.of_nat k + 1))) 0xFF)
      (seq 0 8).

(** A transmission made of marks each followed by a space. *)
Fixpoint mark_space_pairs (tx : list pulse) : bool :=
  match tx with
  | [] => true
  | Mark _ :: Space _ :: tx' => mark_space_pairs tx'
  | _ => false
  end.

(** The pulses of a bit string sent with the Gree bit timings. *)
Fixpoint bit_pulses (bs : list bool) : list pulse :=
  match bs with
  | [] => []
  | b :: bs' =>
      Mark kGreeBitMark
      :: Space (if b then kGreeOneSpace else kGreeZeroSpace)
      :: bit_pulses bs'
  end.

(** ** What a call of [decodeGree] leaves behind *)

(** The state buffer as a call that leaves through [e] leaves it: untouched
    up to the match of block 1, with block 1 stored up to the match of
    block 2, with both blocks stored after that. *)
Definition state_at_exit {ops : IRrecvOps} (e : exit_t)
           (results : decode_results) : list Z :=
  match e with
  | TooShort | StrictMismatch | HeaderMark | HeaderSpace | Block1Error =>
      state results
  | FooterError | FooterMismatch | GapMark | GapSpace | Block2Error =>
      record_block 4 (state results) 0 (u32 (data (block1 results)))
  | TrailMark | TrailSpace | LengthError | ChecksumError | Success =>
      reconstructed results
  end.

(** ** The common A/C representation

    The enumerations and the struct of namespace [stdAc] are declared in
    IRsend.h, which is not in src/.  Each enumeration has the enumerators
    [ir_Gree.cpp] names, taken to be different values, and [other] for any
    enumerator it does not name; the struct has the fields [toCommon]
    assigns. *)

Module stdAc.

Module opmode_t.
Inductive t : Type := kAuto | kCool | kHeat | kDry | kFan | other (tag : Z).
End opmode_t.

Module fanspeed_t.
Inductive t : Type :=
  kAuto | kMin | kLow | kMedium | kHigh | kMax | other (tag : Z).
End fanspeed_t.

Module swingv_t.
Inductive t : Type :=
  kAuto | kHighest | kHigh | kMiddle | kLow | kLowest | other (tag : Z).
End swingv_t.

Module swingh_t.
Inductive t : Type := kOff | other (tag : Z).
End swingh_t.

Record state_t : Type := mk_state_t {
  protocol : decode_type_t;
  model : Z;
  power : bool;
  mode : opmode_t.t;
  celsius : bool;
  degrees : Z;
  fanspeed : fanspeed_t.t;
  swingv : swingv_t.t;
  turbo : bool;
  light : bool;
  clean : bool;
  sleep : Z;
  swingh : swingh_t.t;
  quiet : bool;
  econo : bool;
  filter : bool;
  beep : bool;
  clock : Z
}.

End stdAc.

Section Common.
Context {codes : GreeCodes}.

Definition convertMode (mode : stdAc.opmode_t.t) : Z :=
  match mode with
  | stdAc.opmode_t.kCool => kGreeCool
  | stdAc.opmode_t.kHeat => kGreeHeat
  | stdAc.opmode_t.kDry => kGreeDry
  | stdAc.opmode_t.kFan => kGreeFan
  | _ => kGreeAuto
  end.

Definition convertFan (speed : stdAc.fanspeed_t.t) : Z :=
  match speed with
  | stdAc.fanspeed_t.kMin => kGreeFanMin
  | stdAc.fanspeed_t.kLow | stdAc.fanspeed_t.kMedium => kGreeFanMax - 1
  | stdAc.fanspeed_t.kHigh | stdAc.fanspeed_t.kMax => kGreeFanMax
  | _ => kGreeFanAuto
  end.

Definition convertSwingV (swingv : stdAc.swingv_t.t) : Z :=
  match swingv with
  | stdAc.swingv_t.kHighest => kGreeSwingUp
  | stdAc.swingv_t.kHigh => kGreeSwingMiddleUp
  | stdAc.swingv_t.kMiddle => kGreeSwingMiddle
  | stdAc.swingv_t.kLow => kGreeSwingMiddleDown
  | stdAc.swingv_t.kLowest => kGreeSwingDown
  | _ => kGreeSwingAuto
  end.

Definition toCommonMode (mode : Z) : stdAc.opmode_t.t :=
  if mode =? kGreeCool then stdAc.opmode_t.kCool
  else if mode =? kGreeHeat then stdAc.opmode_t.kHeat
  else if mode =? kGreeDry then stdAc.opmode_t.kDry
  else if mode =? kGreeFan then stdAc.opmode_t.kFan
  else stdAc.opmode_t.kAuto.

Definition toCommonFanSpeed (speed : Z) : stdAc.fanspeed_t.t :=
  if speed =? kGreeFanMax then stdAc.fanspeed_t.kMax
  else if speed =? kGreeFanMax - 1 then stdAc.fanspeed_t.kMedium
  else if speed =? kGreeFanMin then stdAc.fanspeed_t.kMin
  else stdAc.fanspeed_t.kAuto.

Definition toCommonSwingV (pos : Z) : stdAc.swingv_t.t :=
  if pos =? kGreeSwingUp then stdAc.swingv_t.kHighest
  else if pos =? kGreeSwingMiddleUp then stdAc.swingv_t.kHigh
  else if pos =? kGreeSwingMiddle then stdAc.swingv_t.kMiddle
  else if pos =? kGreeSwingMiddleDown then stdAc.swingv_t.kLow
  else if pos =? kGreeSwingDown then stdAc.swingv_t.kLowest
  else stdAc.swingv_t.kAuto.

Definition toCommon (remote_state : list Z) : stdAc.state_t := {|
  stdAc.protocol := GREE;
  stdAc.model := -1;
  stdAc.power := getPower remote_state;
  stdAc.mode := toCommonMode (getMode remote_state);
  stdAc.celsius := true;
  stdAc.degrees := getTemp remote_state;
  stdAc.fanspeed := toCommonFanSpeed (getFan remote_state);
  stdAc.swingv :=
    if getSwingVerticalAuto remote_state then stdAc.swingv_t.kAuto
    else toCommonSwingV (getSwingVerticalPosition remote_state);
  stdAc.turbo := getTurbo remote_state;
  stdAc.light := getLight remote_state;
  stdAc.clean := getXFan remote_state;
  stdAc.sleep := if getSleep remote_state then 0 else -1;
  stdAc.swingh := stdAc.swingh_t.kOff;
  stdAc.quiet := false;
  stdAc.econo := false;
  stdAc.filter := false;
  stdAc.beep := false;
  stdAc.clock := -1
|}.

End Common.

(** The result of [toCommonMode] after [convertMode]: an enumerator
    [convertMode] does not name comes back as [kAuto]. *)
Definition known_mode (mode : stdAc.opmode_t.t) : stdAc.opmode_t.t :=
  match mode with
  | stdAc.opmode_t.other _ => stdAc.opmode_t.kAuto
  | _ => mode
  end.

(** The result of [toCommonFanSpeed] after [convertFan]: low comes back as
    medium, high as max, and an enumerator [convertFan] does not name as
    [kAuto]. *)
Definition fan_tier (speed : stdAc.fanspeed_t.t) : stdAc.fanspeed_t.t :=
  match speed with
  | stdAc.fanspeed_t.kLow => stdAc.fanspeed_t.kMedium
  | stdAc.fanspeed_t.kHigh => stdAc.fanspeed_t.kMax
  | stdAc.fanspeed_t.other _ => stdAc.fanspeed_t.kAuto
  | _ => speed
  end.

(** * Proofs *)

(** ** Bits and arrays *)

Lemma testbit_u8 x n : Z.testbit (u8 x) n = (n <? 8) && Z.testbit x n.
Proof.
  unfold u8. destruct (Z.ltb_spec n 0) as [Hn|Hn].
  - rewrite !Z.testbit_neg_r by lia. now rewrite andb_false_r.
  - apply Z.testbit_mod_pow2; lia.
Qed.

Lemma testbit_small x k n : 0 <= x < 2 ^ k -> k <= n -> Z.testbit x n = false.
Proof.
  intros [H0 Hk] Hn. destruct (Z.eq_dec x 0) as [->|Hx]; [apply Z.testbit_0_l|].
  assert (0 <= k).
  { destruct (Z.le_gt_cases 0 k); [assumption|].
    rewrite Z.pow_neg_r in Hk; lia. }
  apply Z.bits_above_log2; [lia|].
  assert (Z.log2 x < k) by (apply Z.log2_lt_pow2; lia). lia.
Qed.

Lemma u8_small x : 0 <= x < 256 -> u8 x = x.
Proof. intros Hx. unfold u8. apply Z.mod_small. lia. Qed.

Lemma u8_range x : 0 <= u8 x < 256.
Proof. unfold u8. apply Z.mod_pos_bound. lia. Qed.

Lemma u16_small x : 0 <= x < 65536 -> u16 x = x.
Proof. intros Hx. unfold u16. apply Z.mod_small. lia. Qed.

Lemma u32_small x : 0 <= x < 4294967296 -> u32 x = x.
Proof. intros Hx. unfold u32. apply Z.mod_small. lia. Qed.

Lemma truthy_land_bit x k :
  0 <= k -> truthy (Z.land x (2 ^ k)) = Z.testbit x k.
Proof.
  intros Hk. unfold truthy.
  destruct (Z.testbit x k) eqn:Hb.
  - apply negb_true_iff, Z.eqb_neq. intros H0.
    assert (Hc : Z.testbit (Z.land x (2 ^ k)) k = true).
    { rewrite Z.land_spec, Hb, Z.pow2_bits_true by lia. reflexivity. }
    rewrite H0, Z.testbit_0_l in Hc. discriminate.
  - apply negb_false_iff, Z.eqb_eq, Z.bits_inj'. intros n Hn.
    rewrite Z.land_spec, Z.testbit_0_l, Z.pow2_bits_eqb by lia.
    destruct (Z.eqb_spec k n) as [->|Hne]; [now rewrite Hb|apply andb_false_r].
Qed.

(** Turn every [Z.testbit] of a bitwise expression at [n] into the bits of
    its leaves. *)
Ltac push_testbit :=
  repeat first
    [ rewrite testbit_u8 | rewrite Z.land_spec | rewrite Z.lor_spec
    | rewrite Z.lnot_spec by lia | rewrite Z.shiftr_spec by lia
    | rewrite Z.shiftl_spec by lia | rewrite Z.testbit_0_l ].

(** Decide an equation between bytes built from masks: compare bit by bit,
    bits 0 to 7 one at a time and all the higher ones at once. *)
Ltac split_bit n :=
  let H := fresh "Hcase" in
  assert (H : n = 0 \/ n = 1 \/ n = 2 \/ n = 3 \/ n = 4 \/ n = 5 \/ n = 6
              \/ n = 7 \/ 8 <= n) by lia;
  repeat (destruct H as [H|H]); [subst n ..|].

Ltac kill_bits :=
  repeat match goal with
         | |- context [Z.testbit ?v ?k] =>
             lazymatch v with
             | Z0 => fail
             | Zpos _ => fail
             | Zneg _ => fail
             | _ => let k' := eval cbv in k in
                    change (Z.testbit v k) with (Z.testbit v k');
                    destruct (Z.testbit v k')
             end
         end;
  try (vm_compute; reflexivity).

Lemma length_wr8 a i v : length (wr8 a i v) = length a.
Proof. apply length_insert. Qed.

Lemma rd_wr8_eq a i v :
  (Z.to_nat i < length a)%nat -> rd (wr8 a i v) i = u8 v.
Proof.
  intros Hi. unfold rd, wr8. now rewrite list_lookup_insert_eq.
Qed.

Lemma rd_wr8_ne a i j v :
  Z.to_nat i <> Z.to_nat j -> rd (wr8 a i v) j = rd a j.
Proof.
  intros Hij. unfold rd, wr8. now rewrite list_lookup_insert_ne.
Qed.

Lemma is_state_wr8 st i v : is_state st -> is_state (wr8 st i v).
Proof. unfold is_state. now rewrite length_wr8. Qed.

Lemma is_state_lt st i :
  is_state st -> 0 <= i < 8 -> (Z.to_nat i < length st)%nat.
Proof. unfold is_state, kGreeStateLength. intros -> Hi. lia. Qed.

(** Simplify reads of an array after writes at constant indices. *)
Ltac array_simpl :=
  repeat first
    [ rewrite rd_wr8_ne by (cbn; lia)
    | rewrite rd_wr8_eq
        by (rewrite ?length_wr8; apply is_state_lt; [assumption|lia]) ].

Lemma land_small x k : 0 <= k -> 0 <= x < 2 ^ k -> Z.land x (Z.ones k) = x.
Proof. intros Hk Hx. rewrite Z.land_ones by lia. apply Z.mod_small. lia. Qed.

Lemma testbit_mask_lt M n : 0 <= M < 256 -> Z.testbit M n = true -> n < 8.
Proof.
  intros HM Hb. destruct (Z.lt_ge_cases n 8) as [|Hge]; [assumption|].
  rewrite (testbit_small M 8 n) in Hb by lia. discriminate.
Qed.

Lemma testbit_land_eq v M n :
  Z.land v M = v -> Z.testbit v n = true -> Z.testbit M n = true.
Proof.
  intros Hv Hb. rewrite <- Hv, Z.land_spec in Hb.
  now apply andb_true_iff in Hb.
Qed.

Lemma testbit_land_0 v M n :
  Z.land v M = 0 -> Z.testbit M n = true -> Z.testbit v n = false.
Proof.
  intros Hv Hb.
  assert (Hz : Z.testbit (Z.land v M) n = false)
    by (rewrite Hv; apply Z.testbit_0_l).
  rewrite Z.land_spec, Hb, andb_true_r in Hz. exact Hz.
Qed.

(** [a &= ~M; a |= v;] then [a & M]: the field reads back what was stored. *)
Lemma field_write_read b v M :
  0 <= M < 256 -> Z.land v M = v ->
  Z.land (u8 (Z.lor (u8 (Z.land b (Z.lnot M))) v)) M = v.
Proof.
  intros HM Hv. apply Z.bits_inj'. intros n Hn. push_testbit.
  pose proof (testbit_mask_lt M n HM) as Hlt.
  pose proof (testbit_land_eq v M n Hv) as Hin.
  destruct (Z.testbit M n), (Z.testbit v n), (Z.testbit b n);
    cbn; rewrite ?andb_false_r, ?andb_true_r, ?orb_true_r, ?orb_false_r;
    try reflexivity; try (now specialize (Hin eq_refl));
    apply Z.ltb_lt; auto.
Qed.

(** ... and a field under a disjoint mask [M'] is left as it was. *)
Lemma field_write_other b v M M' :
  0 <= M' < 256 -> Z.land v M' = 0 -> Z.land M M' = 0 ->
  Z.land (u8 (Z.lor (u8 (Z.land b (Z.lnot M))) v)) M' = Z.land b M'.
Proof.
  intros HM Hv Hd. apply Z.bits_inj'. intros n Hn. push_testbit.
  pose proof (testbit_mask_lt M' n HM) as Hlt.
  pose proof (testbit_land_0 v M' n Hv) as Hv0.
  pose proof (testbit_land_0 M M' n Hd) as HM0.
  destruct (Z.testbit M' n); [|now rewrite !andb_false_r].
  rewrite Hv0, HM0 by reflexivity.
  replace (n <? 8) with true by (symmetry; apply Z.ltb_lt; auto).
  cbn. now rewrite orb_false_r, !andb_true_r.
Qed.

(** ** Power *)

Lemma getPower_bits st :
  getPower st = Z.testbit (rd st 0) 3 && Z.testbit (rd st 2) 3.
Proof.
  unfold getPower, kGreePower1Mask, kGreePower2Mask.
  change 8 with (2 ^ 3). now rewrite !truthy_land_bit by lia.
Qed.

(** C8.  [on] sets bit 3 of byte 0 and bit 3 of byte 2 and [off] clears both;
    [getPower] is the conjunction of the two bits, so a state in which the
    two bits differ reports power off. *)
Theorem power_coherence st :
  is_state st ->
  (Z.testbit (rd (on st) 0) 3 = true /\ Z.testbit (rd (on st) 2) 3 = true)
  /\ (Z.testbit (rd (off st) 0) 3 = false
      /\ Z.testbit (rd (off st) 2) 3 = false)
  /\ getPower st = Z.testbit (rd st 0) 3 && Z.testbit (rd st 2) 3
  /\ (Z.testbit (rd st 0) 3 <> Z.testbit (rd st 2) 3 -> getPower st = false)
  /\ getPower (on st) = true
  /\ getPower (off st) = false.
Proof.
  intros Hst.
  assert (Hon : Z.testbit (rd (on st) 0) 3 = true
                /\ Z.testbit (rd (on st) 2) 3 = true).
  { unfold on, kGreePower1Mask, kGreePower2Mask. array_simpl.
    split; push_testbit; kill_bits. }
  assert (Hoff : Z.testbit (rd (off st) 0) 3 = false
                 /\ Z.testbit (rd (off st) 2) 3 = false).
  { unfold off, kGreePower1Mask, kGreePower2Mask. array_simpl.
    split; push_testbit; kill_bits. }
  repeat split; try tauto.
  - apply getPower_bits.
  - rewrite getPower_bits. intros Hne.
    destruct (Z.testbit (rd st 0) 3), (Z.testbit (rd st 2) 3);
      try reflexivity; now contradict Hne.
  - rewrite getPower_bits. destruct Hon as [-> ->]. reflexivity.
  - rewrite getPower_bits. destruct Hoff as [-> ->]. reflexivity.
Qed.

Lemma power_coherence_witness :
  (Z.testbit (rd (on reset_state) 0) 3 = true
   /\ Z.testbit (rd (on reset_state) 2) 3 = true)
  /\ (Z.testbit (rd (off reset_state) 0) 3 = false
      /\ Z.testbit (rd (off reset_state) 2) 3 = false)
  /\ getPower reset_state
     = Z.testbit (rd reset_state 0) 3 && Z.testbit (rd reset_state 2) 3
  /\ (Z.testbit (rd reset_state 0) 3 <> Z.testbit (rd reset_state 2) 3 ->
      getPower reset_state = false)
  /\ getPower (on reset_state) = true
  /\ getPower (off reset_state) = false.
Proof. apply (power_coherence reset_state). reflexivity. Defined.

(** ** Temperature *)

Section Temperature.
Context {codes : GreeCodes}.

Lemma nibble_stored b x :
  0 <= x < 16 -> Z.land (u8 (Z.lor (Z.land b 0xF0) x)) 0xF = x.
Proof.
  intros Hx. apply Z.bits_inj'. intros n Hn. push_testbit.
  split_bit n.
  1-4: kill_bits.
  1-4: rewrite (testbit_small x 4) by lia; kill_bits.
  rewrite (testbit_small x 4), (testbit_small 15 4) by lia.
  now rewrite andb_false_r.
Qed.

Lemma getMode_setTemp st t : getMode (setTemp st t) = getMode st.
Proof. unfold getMode, setTemp. now array_simpl. Qed.

(** C6.  [setTemp t] followed by [getTemp] gives [t] clamped into 16..30
    (16 below, 30 above), except that it gives 25 whatever [t] is when the
    current mode is Auto; the mode is not touched. *)
Theorem setTemp_clamps st t :
  is_state st -> is_u8 t ->
  getTemp (setTemp st t)
  = (if getMode st =? kGreeAuto then 25
     else if t <? 16 then 16 else if 30 <? t then 30 else t)
  /\ getMode (setTemp st t) = getMode st.
Proof.
  intros Hst Ht. split; [|apply getMode_setTemp].
  unfold getTemp, setTemp, kGreeMinTemp, kGreeMaxTemp. array_simpl.
  rewrite nibble_stored.
  - destruct (getMode st =? kGreeAuto); [reflexivity|].
    rewrite u8_small by lia.
    destruct (Z.ltb_spec t 16), (Z.ltb_spec 30 t); lia.
  - destruct (getMode st =? kGreeAuto); lia.
Qed.
End Temperature.

Lemma setTemp_clamps_witness :
  getTemp (@setTemp sample_codes cool_state 40)
  = (if getMode cool_state =? @kGreeAuto sample_codes then 25
     else if 40 <? 16 then 16 else if 30 <? 40 then 30 else 40)
  /\ getMode (@setTemp sample_codes cool_state 40) = getMode cool_state.
Proof.
  apply (@setTemp_clamps sample_codes cool_state 40);
    [reflexivity | unfold is_u8; lia].
Defined.

(** ** Mode *)

Section Mode.
Context {codes : GreeCodes}.
Hypothesis Hcodes : codes_ok.

Lemma mode_code_fits m : m ∈ mode_codes -> Z.land m kGreeModeMask = m.
Proof.
  intros Hm. pose proof (mode_codes_fit Hcodes) as Hfit.
  rewrite Forall_forall in Hfit. specialize (Hfit m Hm).
  unfold kGreeModeMask. change 7 with (Z.ones 3). apply land_small; lia.
Qed.

Lemma mode_code_outside_fan m : 0 <= m < 8 -> Z.land m kGreeFanMask = 0.
Proof.
  intros Hm. rewrite <- (land_small m 3) by lia.
  rewrite <- Z.land_assoc. unfold kGreeFanMask.
  change (Z.land (Z.ones 3) 48) with 0. apply Z.land_0_r.
Qed.

Lemma getMode_set_bits b m :
  m ∈ mode_codes ->
  Z.land (u8 (Z.lor (u8 (Z.land b (Z.lnot kGreeModeMask))) m)) kGreeModeMask
  = m.
Proof.
  intros Hm. apply field_write_read; [unfold kGreeModeMask; lia|].
  now apply mode_code_fits.
Qed.

Lemma auto_is_code : kGreeAuto ∈ mode_codes.
Proof. apply list_elem_of_here. Qed.

(** C7.  After [setMode m]: the temperature reads 25 when [m] is Auto, the
    fan reads 1 when [m] is Dry, the mode reads Auto when [m] is none of the
    five mode codes, and reads [m] otherwise. *)
Theorem setMode_effects st m :
  is_state st -> is_u8 m ->
  (m = kGreeAuto -> getTemp (setMode st m) = 25)
  /\ (m = kGreeDry -> getFan (setMode st m) = 1)
  /\ (m ∉ mode_codes -> getMode (setMode st m) = kGreeAuto)
  /\ (m ∈ mode_codes -> getMode (setMode st m) = m).
Proof.
  intros Hst Hm.
  pose proof (mode_codes_distinct Hcodes) as Hnd.
  pose proof (mode_codes_fit Hcodes) as Hfit.
  unfold mode_codes in Hnd, Hfit.
  repeat split.
  - intros ->. unfold setMode. rewrite Z.eqb_refl.
    unfold getTemp, setTemp, kGreeMinTemp, kGreeMaxTemp. array_simpl.
    replace (if getMode st =? kGreeAuto then 25 else Z.min 30 (Z.max 16 25))
      with 25 by (destruct (getMode st =? kGreeAuto); reflexivity).
    now rewrite nibble_stored by lia.
  - intros ->. unfold setMode.
    assert (Hne : kGreeDry <> kGreeAuto).
    { apply NoDup_cons in Hnd as [Hnotin _]. intros Heq.
      apply Hnotin. rewrite <- Heq. apply list_elem_of_here. }
    apply Z.eqb_neq in Hne. rewrite Hne, Z.eqb_refl.
    assert (Hdry : 0 <= kGreeDry < 8).
    { rewrite !Forall_cons in Hfit. tauto. }
    unfold getFan, setFan, kGreeFanMax. array_simpl.
    replace (if getMode st =? kGreeDry then 1 else Z.min 3 1)
      with 1 by (destruct (getMode st =? kGreeDry); reflexivity).
    rewrite field_write_other;
      [|unfold kGreeFanMask; lia|now apply mode_code_outside_fan|reflexivity].
    rewrite field_write_read; [reflexivity|unfold kGreeFanMask; lia|reflexivity].
  - intros Hout. unfold setMode, mode_codes in *.
    rewrite !elem_of_cons, elem_of_nil in Hout.
    destruct (Z.eqb_spec m kGreeAuto); [tauto|].
    destruct (Z.eqb_spec m kGreeDry); [tauto|].
    destruct (Z.eqb_spec m kGreeCool); [tauto|].
    destruct (Z.eqb_spec m kGreeFan); [tauto|].
    destruct (Z.eqb_spec m kGreeHeat); [tauto|].
    cbn. unfold getMode. array_simpl. apply getMode_set_bits, auto_is_code.
  - intros Hin. unfold setMode.
    assert (Hbits : forall st0, is_state st0 ->
              getMode (wr8 (wr8 st0 0 (Z.land (rd st0 0) (Z.lnot kGreeModeMask)))
                           0 (Z.lor (rd (wr8 st0 0 (Z.land (rd st0 0)
                                      (Z.lnot kGreeModeMask))) 0) m)) = m).
    { intros st0 Hst0. unfold getMode. array_simpl.
      now apply getMode_set_bits. }
    destruct (Z.eqb_spec m kGreeAuto).
    { apply Hbits. unfold setTemp. now apply is_state_wr8. }
    destruct (Z.eqb_spec m kGreeDry).
    { apply Hbits. unfold setFan. now do 2 apply is_state_wr8. }
    destruct ((m =? kGreeCool) || (m =? kGreeFan) || (m =? kGreeHeat)) eqn:Hk.
    { now apply Hbits. }
    exfalso. unfold mode_codes in Hin.
    apply orb_false_iff in Hk as [Hk Hheat].
    apply orb_false_iff in Hk as [Hcool Hfan].
    apply Z.eqb_neq in Hcool, Hfan, Hheat.
    rewrite !elem_of_cons, elem_of_nil in Hin. intuition congruence.
Qed.
End Mode.

Lemma sample_codes_ok : @codes_ok sample_codes.
Proof.
  split.
  - unfold mode_codes. cbn. repeat (apply NoDup_cons; split);
      [| | | | |apply NoDup_nil_2];
      rewrite ?elem_of_cons, elem_of_nil; lia.
  - unfold mode_codes. cbn. repeat (apply Forall_cons; split; [lia|]).
    apply Forall_nil_2.
  - unfold auto_swing_codes, manual_swing_codes. cbn.
    repeat (apply Forall_cons; split; [lia|]). apply Forall_nil_2.
Qed.

Lemma setMode_effects_witness :
  (2 = @kGreeAuto sample_codes ->
   getTemp (@setMode sample_codes reset_state 2) = 25)
  /\ (2 = @kGreeDry sample_codes ->
      getFan (@setMode sample_codes reset_state 2) = 1)
  /\ (2 ∉ @mode_codes sample_codes ->
      getMode (@setMode sample_codes reset_state 2) = @kGreeAuto sample_codes)
  /\ (2 ∈ @mode_codes sample_codes ->
      getMode (@setMode sample_codes reset_state 2) = 2).
Proof.
  apply (@setMode_effects sample_codes sample_codes_ok reset_state 2);
    [reflexivity | unfold is_u8; lia].
Defined.

(** ** Vertical swing *)

Section Swing.
Context {codes : GreeCodes}.
Hypothesis Hcodes : codes_ok.

Lemma swing_code_fits p :
  p ∈ kGreeSwingLastPos :: auto_swing_codes ++ manual_swing_codes ->
  Z.land p kGreeSwingPosMask = p.
Proof.
  intros Hp. pose proof (swing_codes_fit Hcodes) as Hfit.
  rewrite Forall_forall in Hfit. specialize (Hfit p Hp).
  unfold kGreeSwingPosMask. change 15 with (Z.ones 4). apply land_small; lia.
Qed.

Lemma auto_code_known p :
  p ∈ auto_swing_codes ->
  p ∈ kGreeSwingLastPos :: auto_swing_codes ++ manual_swing_codes.
Proof. intros Hp. apply list_elem_of_further, elem_of_app. now left. Qed.

Lemma manual_code_known p :
  p ∈ manual_swing_codes ->
  p ∈ kGreeSwingLastPos :: auto_swing_codes ++ manual_swing_codes.
Proof. intros Hp. apply list_elem_of_further, elem_of_app. now right. Qed.

Lemma swing_auto_known : kGreeSwingAuto ∈ auto_swing_codes.
Proof. apply list_elem_of_here. Qed.

Lemma swing_auto_bit b (automatic : bool) :
  Z.testbit (u8 (Z.lor (u8 (Z.land b (Z.lnot kGreeSwingAutoMask)))
                       (Z.shiftl (Z.b2z automatic) 6))) 6 = automatic.
Proof.
  unfold kGreeSwingAutoMask.
  destruct automatic; cbn [Z.b2z]; push_testbit; kill_bits.
Qed.

(** C9.  [setSwingVertical automatic position] stores [position] when it is
    a legal code of the branch [automatic] selects (the four automatic codes,
    or the five manual ones), the generic automatic code for any other
    position when [automatic] holds and the last-position code for any other
    position when it does not; bit 6 of byte 0 becomes [automatic]. *)
Theorem setSwingVertical_stores st automatic position :
  is_state st -> is_u8 position ->
  let st' := setSwingVertical st automatic position in
  Z.testbit (rd st' 0) 6 = automatic
  /\ getSwingVerticalAuto st' = automatic
  /\ (automatic = true -> position ∈ auto_swing_codes ->
      getSwingVerticalPosition st' = position)
  /\ (automatic = true -> position ∉ auto_swing_codes ->
      getSwingVerticalPosition st' = kGreeSwingAuto)
  /\ (automatic = false -> position ∈ manual_swing_codes ->
      getSwingVerticalPosition st' = position)
  /\ (automatic = false -> position ∉ manual_swing_codes ->
      getSwingVerticalPosition st' = kGreeSwingLastPos).
Proof.
  intros Hst Hpos st'.
  assert (Hbit : Z.testbit (rd st' 0) 6 = automatic).
  { subst st'. unfold setSwingVertical. array_simpl. apply swing_auto_bit. }
  assert (Hpos' : forall p,
             p ∈ kGreeSwingLastPos :: auto_swing_codes ++ manual_swing_codes ->
             Z.land (u8 (Z.lor (u8 (Z.land (rd st 4)
                                           (Z.lnot kGreeSwingPosMask))) p))
                    kGreeSwingPosMask = p).
  { intros p Hp. apply field_write_read; [unfold kGreeSwingPosMask; lia|].
    now apply swing_code_fits. }
  split; [exact Hbit|]. split.
  { unfold getSwingVerticalAuto, kGreeSwingAutoMask. change 64 with (2 ^ 6).
    now rewrite truthy_land_bit by lia. }
  subst st'. unfold getSwingVerticalPosition, setSwingVertical.
  repeat split; intros -> Hmem; cbn [negb]; array_simpl.
  - replace ((position =? kGreeSwingAuto) || (position =? kGreeSwingDownAuto)
             || (position =? kGreeSwingMiddleAuto)
             || (position =? kGreeSwingUpAuto)) with true.
    + now apply Hpos', auto_code_known.
    + symmetry. rewrite !orb_true_iff, !Z.eqb_eq.
      unfold auto_swing_codes, manual_swing_codes in Hmem.
      rewrite !elem_of_cons, elem_of_nil in Hmem. tauto.
  - replace ((position =? kGreeSwingAuto) || (position =? kGreeSwingDownAuto)
             || (position =? kGreeSwingMiddleAuto)
             || (position =? kGreeSwingUpAuto)) with false.
    + apply Hpos', auto_code_known, swing_auto_known.
    + symmetry. rewrite !orb_false_iff, !Z.eqb_neq.
      unfold auto_swing_codes, manual_swing_codes in Hmem.
      rewrite !elem_of_cons, elem_of_nil in Hmem. tauto.
  - replace ((position =? kGreeSwingUp) || (position =? kGreeSwingMiddleUp)
             || (position =? kGreeSwingMiddle)
             || (position =? kGreeSwingMiddleDown)
             || (position =? kGreeSwingDown)) with true.
    + now apply Hpos', manual_code_known.
    + symmetry. rewrite !orb_true_iff, !Z.eqb_eq.
      unfold auto_swing_codes, manual_swing_codes in Hmem.
      rewrite !elem_of_cons, elem_of_nil in Hmem. tauto.
  - replace ((position =? kGreeSwingUp) || (position =? kGreeSwingMiddleUp)
             || (position =? kGreeSwingMiddle)
             || (position =? kGreeSwingMiddleDown)
             || (position =? kGreeSwingDown)) with false.
    + apply Hpos', list_elem_of_here.
    + symmetry. rewrite !orb_false_iff, !Z.eqb_neq.
      unfold auto_swing_codes, manual_swing_codes in Hmem.
      rewrite !elem_of_cons, elem_of_nil in Hmem. tauto.
Qed.
End Swing.

Lemma setSwingVertical_stores_witness :
  let st' := @setSwingVertical sample_codes reset_state false 99 in
  Z.testbit (rd st' 0) 6 = false
  /\ getSwingVerticalAuto st' = false
  /\ (false = true -> 99 ∈ @auto_swing_codes sample_codes ->
      getSwingVerticalPosition st' = 99)
  /\ (false = true -> 99 ∉ @auto_swing_codes sample_codes ->
      getSwingVerticalPosition st' = @kGreeSwingAuto sample_codes)
  /\ (false = false -> 99 ∈ @manual_swing_codes sample_codes ->
      getSwingVerticalPosition st' = 99)
  /\ (false = false -> 99 ∉ @manual_swing_codes sample_codes ->
      getSwingVerticalPosition st' = @kGreeSwingLastPos sample_codes).
Proof.
  apply (@setSwingVertical_stores sample_codes sample_codes_ok reset_state
                                  false 99);
    [reflexivity | unfold is_u8; lia].
Defined.

(** ** Checksum *)

Section Checksum.
Context {cs : BlockChecksum}.
Hypothesis Hcontract : checksum_contract.

Lemma checksum_nibble_read sum b :
  0 <= sum < 16 ->
  Z.shiftr (u8 (Z.lor (Z.shiftl sum 4) (Z.land b 0xF))) 4 = sum.
Proof.
  intros Hsum. apply Z.bits_inj'. intros n Hn. push_testbit.
  replace (n + 4 - 4) with n by lia.
  rewrite (testbit_small 15 4 (n + 4)), andb_false_r, orb_false_r by lia.
  destruct (Z.ltb_spec (n + 4) 8); [reflexivity|].
  cbn. symmetry. apply (testbit_small sum 4); lia.
Qed.

Lemma checksum_low_nibble_kept sum b :
  Z.land (u8 (Z.lor (Z.shiftl sum 4) (Z.land b 0xF))) 0xF = Z.land b 0xF.
Proof.
  apply Z.bits_inj'. intros n Hn. push_testbit.
  destruct (Z.lt_ge_cases n 4).
  - rewrite (Z.testbit_neg_r sum) by lia.
    replace (n <? 8) with true by (symmetry; apply Z.ltb_lt; lia).
    cbn. now rewrite <- andb_assoc, andb_diag.
  - rewrite (testbit_small 15 4 n) by lia. now rewrite !andb_false_r.
Qed.

(** C2.  Right after [fixup], [validChecksum] holds; the top nibble of the
    last byte is the computed checksum, its low nibble and all the other
    bytes are as before. *)
Theorem fixup_valid st :
  is_state st ->
  validChecksum (fixup st) kGreeStateLength = true
  /\ Z.shiftr (rd (fixup st) 7) 4 = calcBlockChecksum st kGreeStateLength
  /\ Z.land (rd (fixup st) 7) 0xF = Z.land (rd st 7) 0xF
  /\ (forall i, i <> 7 -> rd (fixup st) i = rd st i)
  /\ length (fixup st) = length st.
Proof.
  intros Hst.
  pose proof (checksum_nibble Hcontract st kGreeStateLength) as Hsum.
  assert (Hhi : Z.shiftr (rd (fixup st) 7) 4
                = calcBlockChecksum st kGreeStateLength).
  { unfold fixup, checksum, kGreeStateLength in *. cbn [Z.sub Z.add Z.opp Z.pos_sub].
    array_simpl. now apply checksum_nibble_read. }
  assert (Hlo : Z.land (rd (fixup st) 7) 0xF = Z.land (rd st 7) 0xF).
  { unfold fixup, checksum, kGreeStateLength. cbn [Z.sub Z.add Z.opp Z.pos_sub].
    array_simpl. apply checksum_low_nibble_kept. }
  assert (Hother : forall i, i <> 7 -> rd (fixup st) i = rd st i).
  { intros i Hi. unfold fixup, checksum, kGreeStateLength.
    cbn [Z.sub Z.add Z.opp Z.pos_sub].
    destruct (Z.lt_ge_cases i 0).
    - unfold rd, wr8. replace (Z.to_nat i) with 0%nat by lia.
      now rewrite list_lookup_insert_ne by (cbn; lia).
    - apply rd_wr8_ne. lia. }
  repeat split; try assumption.
  - unfold validChecksum.
    replace (kGreeStateLength - 1) with 7 by reflexivity.
    rewrite Hhi.
    rewrite (checksum_footprint Hcontract (fixup st) st kGreeStateLength).
    + now rewrite Z.eqb_refl.
    + reflexivity.
    + intros i Hi. apply Hother. unfold kGreeStateLength in Hi. lia.
    + exact Hlo.
  - apply length_wr8.
Qed.

End Checksum.

Lemma foldr_ext_in {A B} (f g : B -> A -> A) x l :
  (forall b a, b ∈ l -> f b a = g b a) -> foldr f x l = foldr g x l.
Proof.
  induction l as [|b l IH]; intros Hfg; [reflexivity|]. cbn.
  rewrite IH by (intros; apply Hfg; now apply list_elem_of_further).
  apply Hfg, list_elem_of_here.
Qed.

Lemma nibble_sum_contract : @checksum_contract nibble_sum.
Proof.
  split.
  - intros block len. cbn. change 15 with (Z.ones 4).
    rewrite Z.land_ones by lia. apply Z.mod_pos_bound. lia.
  - intros block block' len Hlen Hbytes Hlast. cbn. f_equal.
    rewrite Hlast. apply foldr_ext_in. intros i acc Hi.
    apply elem_of_seq in Hi. rewrite Hbytes by lia. reflexivity.
Qed.

Lemma fixup_valid_witness :
  @validChecksum nibble_sum (@fixup nibble_sum reset_state) kGreeStateLength
  = true
  /\ Z.shiftr (rd (@fixup nibble_sum reset_state) 7) 4
     = @calcBlockChecksum nibble_sum reset_state kGreeStateLength
  /\ Z.land (rd (@fixup nibble_sum reset_state) 7) 0xF
     = Z.land (rd reset_state 7) 0xF
  /\ (forall i, i <> 7 -> rd (@fixup nibble_sum reset_state) i = rd reset_state i)
  /\ length (@fixup nibble_sum reset_state) = length reset_state.
Proof.
  apply (@fixup_valid nibble_sum nibble_sum_contract reset_state). reflexivity.
Defined.

(** ** The decoder *)

Section Decoder.
Context {ops : IRrecvOps} {cs : BlockChecksum}.

Ltac expose :=
  unfold framing_ok, long_enough, header_ok, footer_ok, gap_ok, trailer_ok,
    reconstructed, off_trail, block2, off_block2, off_gap, footer,
    off_footer, block1, off_block1, matchGreeData, set_state in *;
  cbn [rawbuf rawlen state bits decode_type] in *.

(** What a call returns on a capture that passes the framing checks. *)
Lemma decodeGree_run_framed results nbits strict :
  framing_ok results nbits = true ->
  decodeGree_run results nbits strict
  = if strict && negb (nbits =? kGreeBits) then (StrictMismatch, results)
    else if strict
            && negb (validChecksum (reconstructed results) kGreeStateLength)
    then (ChecksumError, set_state results (reconstructed results))
    else (Success,
          mk_results GREE (reconstructed results) 64 (rawbuf results)
                     (rawlen results)).
Proof.
  intros Hf. unfold decodeGree_run. expose.
  repeat match goal with
         | Hc : _ && _ = true |- _ => apply andb_true_iff in Hc as [? ?]
         end.
  repeat match goal with
         | Hc : negb _ = true |- _ => apply negb_true_iff in Hc
         end.
  repeat match goal with
         | Hc : _ = _ |- _ => rewrite Hc
         end.
  cbn [negb].
  destruct (strict && negb (nbits =? kGreeBits)); [reflexivity|].
  replace (strict && negb (0 + 4 + 4 =? kGreeStateLength)) with false
    by (destruct strict; reflexivity).
  reflexivity.
Qed.

Ltac step_if Hrun :=
  match type of Hrun with
  | (if ?c then _ else _) = _ => destruct c eqn:?
  end.

(** Only a capture that passes the framing checks is accepted. *)
Lemma decodeGree_run_success results nbits strict r :
  decodeGree_run results nbits strict = (Success, r) ->
  framing_ok results nbits = true.
Proof.
  intros Hrun. unfold decodeGree_run in Hrun. expose. cbv zeta in Hrun.
  repeat (step_if Hrun; [discriminate Hrun|]).
  repeat match goal with
         | Hc : negb _ = false |- _ => apply negb_false_iff in Hc
         end.
  repeat match goal with
         | Hc : _ = _ |- _ => rewrite Hc
         end.
  reflexivity.
Qed.

(** C10.  However a call of [decodeGree] ends, it does not end at the
    strict length check: [state_pos] is 8 there on every path.  When the call
    succeeds, it reports 64 bits and the type GREE, whatever [nbits] and
    [strict] are. *)
Theorem decodeGree_reports_64_bits results nbits strict e r :
  decodeGree_run results nbits strict = (e, r) ->
  e <> LengthError
  /\ (e = Success -> bits r = 64 /\ decode_type r = GREE).
Proof.
  intros Hrun. unfold decodeGree_run in Hrun. cbv zeta in Hrun.
  repeat (step_if Hrun;
          [injection Hrun as <- <-; split; [discriminate|discriminate]|]).
  step_if Hrun.
  { destruct strict; discriminate. }
  repeat (step_if Hrun;
          [injection Hrun as <- <-; split; [discriminate|discriminate]|]).
  injection Hrun as <- <-. split; [discriminate|]. intros _. split; reflexivity.
Qed.

(** C4.  A capture whose 3-bit footer decodes to something else than 0b010
    is rejected, in strict and in lenient mode. *)
Theorem wrong_footer_rejected results nbits strict :
  data (footer results) <> kGreeBlockFooter ->
  fst (decodeGree results nbits strict) = false.
Proof.
  intros Hfooter. unfold decodeGree.
  destruct (decodeGree_run results nbits strict) as [e r] eqn:Hrun.
  destruct e; try reflexivity.
  apply decodeGree_run_success in Hrun.
  unfold framing_ok, footer_ok in Hrun.
  repeat match goal with
         | Hc : _ && _ = true |- _ => apply andb_true_iff in Hc as [? ?]
         end.
  exfalso. apply Hfooter. now apply Z.eqb_eq.
Qed.

(** C3.  A capture that passes every framing check and whose reconstructed
    record has a wrong checksum nibble is accepted in lenient mode, with the
    record in the state buffer, and rejected in strict mode. *)
Theorem strict_rejects_bad_checksum results nbits :
  framing_ok results nbits = true ->
  validChecksum (reconstructed results) kGreeStateLength = false ->
  decodeGree results nbits false
  = (true,
     mk_results GREE (reconstructed results) 64 (rawbuf results)
                (rawlen results))
  /\ fst (decodeGree results nbits true) = false.
Proof.
  intros Hframe Hsum. unfold decodeGree.
  rewrite !decodeGree_run_framed by assumption. rewrite Hsum.
  split; [reflexivity|]. cbn [andb negb].
  destruct (negb (nbits =? kGreeBits)); reflexivity.
Qed.

Lemma framing_split results nbits :
  framing_ok results nbits
  = framing_but_gap results nbits && gap_ok results.
Proof.
  unfold framing_ok, framing_but_gap.
  destruct (long_enough results nbits), (header_ok results),
    (success (block1 results)), (footer_ok results), (gap_ok results),
    (success (block2 results)), (trailer_ok results); reflexivity.
Qed.

(** C5, as the code has it.  On a capture that passes all the other framing
    checks, [decodeGree] accepts the inter-block gap exactly when its mark
    passes [matchMark] against the bit mark and its space passes [matchSpace]
    against the message space: the comparator of the header and the bit
    spaces, not [matchAtLeast]. *)
Theorem gap_needs_matchSpace results nbits :
  framing_but_gap results nbits = true ->
  fst (decodeGree results nbits false) = true
  <-> matchMark (rd (rawbuf results) (off_gap results)) kGreeBitMark = true
      /\ matchSpace (rd (rawbuf results) (u16 (off_gap results + 1)))
                    kGreeMsgSpace = true.
Proof.
  intros Hrest. rewrite <- andb_true_iff. fold (gap_ok results).
  unfold decodeGree. split.
  - destruct (decodeGree_run results nbits false) as [e r] eqn:Hrun.
    destruct e; try discriminate. intros _.
    apply decodeGree_run_success in Hrun.
    rewrite framing_split in Hrun. now apply andb_true_iff in Hrun.
  - intros Hgap. rewrite decodeGree_run_framed; [reflexivity|].
    now rewrite framing_split, Hrest, Hgap.
Qed.

End Decoder.

(** ** The wire format *)

Lemma length_lsb_bits v n : length (lsb_bits v n) = n.
Proof. revert v. induction n as [|n IH]; intros v; cbn; [|rewrite IH]; reflexivity. Qed.

Lemma length_bit_timings bs : length (bit_timings bs) = (2 * length bs)%nat.
Proof. induction bs as [|b bs IH]; cbn; [|rewrite IH]; lia. Qed.

Lemma bit_timings_app bs bs' :
  bit_timings (bs ++ bs') = bit_timings bs ++ bit_timings bs'.
Proof. induction bs as [|b bs IH]; cbn; [|rewrite IH]; reflexivity. Qed.

Lemma sendData_lsb_timings v n :
  map duration
      (sendData_lsb kGreeBitMark kGreeOneSpace kGreeBitMark kGreeZeroSpace v n)
  = bit_timings (lsb_bits v n).
Proof.
  revert v. induction n as [|n IH]; intros v; [reflexivity|].
  cbn [sendData_lsb lsb_bits bit_timings]. rewrite map_app, IH.
  destruct (Z.odd v); reflexivity.
Qed.

Lemma pack_lsb_range bs : 0 <= pack_lsb bs < 2 ^ Z.of_nat (length bs).
Proof.
  induction bs as [|b bs IH]; [cbn; lia|].
  cbn [pack_lsb length]. rewrite Nat2Z.inj_succ, Z.pow_succ_r by lia.
  destruct b; cbn [Z.b2z]; lia.
Qed.

Lemma pack_lsb_app_bits v n bs :
  pack_lsb (lsb_bits v n ++ bs)
  = v mod 2 ^ Z.of_nat n + 2 ^ Z.of_nat n * pack_lsb bs.
Proof.
  revert v. induction n as [|n IH]; intros v.
  - cbn [lsb_bits app Z.of_nat]. rewrite Z.pow_0_r, Z.mod_1_r. lia.
  - cbn [lsb_bits app pack_lsb]. rewrite IH, Nat2Z.inj_succ, Z.pow_succ_r by lia.
    rewrite Z.shiftr_div_pow2 by lia. change (2 ^ 1) with 2.
    rewrite (Z.rem_mul_r v 2 (2 ^ Z.of_nat n)) by lia.
    rewrite <- Z.bit0_mod, Z.bit0_odd. lia.
Qed.

Lemma pack_block_bits b0 b1 b2 b3 :
  is_u8 b0 -> is_u8 b1 -> is_u8 b2 -> is_u8 b3 ->
  pack_lsb (block_bits b0 b1 b2 b3)
  = b0 + 256 * (b1 + 256 * (b2 + 256 * (b3 + 256 * 0))).
Proof.
  unfold is_u8, block_bits. intros H0 H1 H2 H3.
  rewrite <- (app_nil_r (lsb_bits b3 8)), !pack_lsb_app_bits.
  change (2 ^ Z.of_nat 8) with 256. rewrite !Z.mod_small by lia. reflexivity.
Qed.

Lemma low_byte b x : is_u8 b -> u8 (Z.land (b + 256 * x) 0xFF) = b.
Proof.
  unfold is_u8. intros Hb. change 255 with (Z.ones 8).
  rewrite Z.land_ones by lia. change (2 ^ 8) with 256.
  replace (b + 256 * x) with (b + x * 256) by lia.
  rewrite Z.mod_add, Z.mod_small by lia. apply u8_small. lia.
Qed.

Lemma next_bytes b x : is_u8 b -> Z.shiftr (b + 256 * x) 8 = x.
Proof.
  unfold is_u8. intros Hb. rewrite Z.shiftr_div_pow2 by lia.
  change (2 ^ 8) with 256.
  replace (b + 256 * x) with (x * 256 + b) by lia.
  rewrite Z.div_add_l, Z.div_small by lia. lia.
Qed.

Lemma record_block_bytes st pos b0 b1 b2 b3 :
  is_u8 b0 -> is_u8 b1 -> is_u8 b2 -> is_u8 b3 ->
  record_block 4 st pos (pack_lsb (block_bits b0 b1 b2 b3))
  = <[Z.to_nat (pos + 1 + 1 + 1) := b3]>
      (<[Z.to_nat (pos + 1 + 1) := b2]>
         (<[Z.to_nat (pos + 1) := b1]> (<[Z.to_nat pos := b0]> st))).
Proof.
  intros H0 H1 H2 H3. rewrite pack_block_bits by assumption.
  cbn [record_block]. unfold wr8.
  repeat first [ rewrite low_byte by assumption
               | rewrite next_bytes by assumption ].
  reflexivity.
Qed.

Lemma sendGree_timings b0 b1 b2 b3 b4 b5 b6 b7 :
  exists tx,
    sendGree [b0; b1; b2; b3; b4; b5; b6; b7] 8 0 = Some tx
    /\ map duration tx
       = frame_timings (block_bits b0 b1 b2 b3) (block_bits b4 b5 b6 b7).
Proof.
  eexists. split; [reflexivity|].
  unfold sendGree_message, sendGeneric_bytes, sendGeneric_value,
    sendGeneric_frame, sendData.
  change (kGreeHdrMark =? 0) with false. change (kGreeHdrSpace =? 0) with false.
  change (kGreeBitMark =? 0) with false. change (kGreeMsgSpace =? 0) with false.
  change (0 =? 0) with true.
  change (Z.to_nat 0 + 1)%nat with 1%nat. change (Z.to_nat 8) with 8%nat.
  change (Z.to_nat 3) with 3%nat. change (Z.to_nat (8 - 4)) with 4%nat.
  change (Z.to_nat 4) with 4%nat.
  cbn [replicate mjoin list_join seq map drop].
  change (rd [b0; b1; b2; b3; b4; b5; b6; b7] (Z.of_nat 0)) with b0.
  change (rd [b0; b1; b2; b3; b4; b5; b6; b7] (Z.of_nat 1)) with b1.
  change (rd [b0; b1; b2; b3; b4; b5; b6; b7] (Z.of_nat 2)) with b2.
  change (rd [b0; b1; b2; b3; b4; b5; b6; b7] (Z.of_nat 3)) with b3.
  change (rd [b4; b5; b6; b7] (Z.of_nat 0)) with b4.
  change (rd [b4; b5; b6; b7] (Z.of_nat 1)) with b5.
  change (rd [b4; b5; b6; b7] (Z.of_nat 2)) with b6.
  change (rd [b4; b5; b6; b7] (Z.of_nat 3)) with b7.
  rewrite !app_nil_r.
  repeat first [ rewrite map_app | rewrite map_cons
               | rewrite sendData_lsb_timings ].
  unfold frame_timings, after_block1, after_footer, after_gap, after_block2,
    block_bits.
  rewrite !bit_timings_app.
  cbn [duration map app]. rewrite <- !app_assoc. reflexivity.
Qed.

Lemma store_record (st : list Z) (b0 b1 b2 b3 b4 b5 b6 b7 : Z) :
  (8 <= length st)%nat ->
  <[Z.to_nat (4 + 1 + 1 + 1) := b7]>
    (<[Z.to_nat (4 + 1 + 1) := b6]>
       (<[Z.to_nat (4 + 1) := b5]>
          (<[Z.to_nat 4 := b4]>
             (<[Z.to_nat (0 + 1 + 1 + 1) := b3]>
                (<[Z.to_nat (0 + 1 + 1) := b2]>
                   (<[Z.to_nat (0 + 1) := b1]> (<[Z.to_nat 0 := b0]> st)))))))
  = [b0; b1; b2; b3; b4; b5; b6; b7] ++ drop 8 st.
Proof.
  intros Hlen.
  do 8 (destruct st as [|? st]; [cbn in Hlen; lia|]). reflexivity.
Qed.

(** ** Matching what was sent *)

Section RoundTrip.
Context {cs : BlockChecksum}.
Variables (tolerance excess : Z) (mark_ok space_ok at_least : Z -> Z -> bool).
Hypothesis Hcmp : comparators_ok mark_ok space_ok at_least.
Hypothesis Hcontract : checksum_contract.

Local Abbreviation ops :=
  (model_ops tolerance excess mark_ok space_ok at_least).

Lemma match_bits_timings bs rest :
  match_bits mark_ok space_ok (bit_timings bs ++ rest) (length bs)
             kGreeBitMark kGreeOneSpace kGreeBitMark kGreeZeroSpace
  = Some bs.
Proof.
  induction bs as [|b bs IH]; [reflexivity|].
  cbn [bit_timings length match_bits app].
  change (rd (?x :: _) 0) with x. change (rd (_ :: ?y :: _) 1) with y.
  change (drop 2 (_ :: _ :: ?l)) with l.
  rewrite (cmp_bit_mark _ _ _ Hcmp), IH.
  destruct b.
  - now rewrite (cmp_one_space _ _ _ Hcmp).
  - now rewrite (cmp_zero_not_one _ _ _ Hcmp), (cmp_zero_space _ _ _ Hcmp).
Qed.

Lemma matchData_timings bs rest n :
  Z.to_nat n = length bs ->
  @matchData ops (bit_timings bs ++ rest) n kGreeBitMark kGreeOneSpace
             kGreeBitMark kGreeZeroSpace (@kTolerance ops) (@kMarkExcess ops)
             false
  = mk_match true (u64 (pack_lsb bs)) (u16 (2 * n)).
Proof.
  intros Hn. cbn [matchData model_ops]. unfold matchData_model.
  now rewrite Hn, match_bits_timings.
Qed.

Lemma drop_bit_timings bs rest n :
  n = (2 * length bs)%nat -> drop n (bit_timings bs ++ rest) = rest.
Proof.
  intros ->. rewrite <- length_bit_timings. apply drop_app_length.
Qed.

Lemma rd_drop l k : rd l k = rd (drop (Z.to_nat k) l) 0.
Proof. unfold rd. rewrite lookup_drop. f_equal. f_equal. cbn. lia. Qed.

Lemma validChecksum_prefix (R rest : list Z) :
  length R = 8%nat ->
  validChecksum (R ++ rest) kGreeStateLength
  = validChecksum R kGreeStateLength.
Proof.
  intros HR.
  assert (Hrd : forall i, 0 <= i < 8 -> rd (R ++ rest) i = rd R i).
  { intros i Hi. unfold rd. rewrite lookup_app_l by lia. reflexivity. }
  unfold validChecksum. rewrite Hrd by (unfold kGreeStateLength; lia).
  rewrite (checksum_footprint Hcontract (R ++ rest) R kGreeStateLength).
  - reflexivity.
  - reflexivity.
  - intros i Hi. apply Hrd. unfold kGreeStateLength in Hi. lia.
  - rewrite Hrd by (unfold kGreeStateLength; lia). reflexivity.
Qed.

Section Frame.
Variables (B1 B2 : list bool) (pre : Z) (st : list Z).
Hypothesis HB1 : length B1 = 32%nat.
Hypothesis HB2 : length B2 = 32%nat.

Local Abbreviation res := (frame_capture pre st B1 B2).

Lemma frame_drop_3 :
  drop 3 (rawbuf res) = bit_timings B1 ++ after_block1 B2.
Proof. reflexivity. Qed.

Lemma frame_drop_67 : drop 67 (rawbuf res) = after_block1 B2.
Proof.
  change 67%nat with (3 + 64)%nat. rewrite <- drop_drop, frame_drop_3.
  apply drop_bit_timings. rewrite HB1. reflexivity.
Qed.

Lemma frame_drop_73 : drop 73 (rawbuf res) = after_footer B2.
Proof.
  change 73%nat with (67 + 6)%nat. rewrite <- drop_drop, frame_drop_67.
  reflexivity.
Qed.

Lemma frame_drop_75 : drop 75 (rawbuf res) = after_gap B2.
Proof.
  change 75%nat with (73 + 2)%nat. rewrite <- drop_drop, frame_drop_73.
  reflexivity.
Qed.

Lemma frame_drop_139 : drop 139 (rawbuf res) = after_block2.
Proof.
  change 139%nat with (75 + 64)%nat. rewrite <- drop_drop, frame_drop_75.
  apply drop_bit_timings. rewrite HB2. reflexivity.
Qed.

Lemma frame_block1 :
  @block1 ops res = mk_match true (u64 (pack_lsb B1)) 64.
Proof.
  unfold block1, matchGreeData.
  change (Z.to_nat (@off_block1 ops)) with 3%nat.
  rewrite frame_drop_3. now rewrite matchData_timings by (now rewrite HB1).
Qed.

Lemma frame_off_footer : @off_footer ops res = 67.
Proof. unfold off_footer. now rewrite frame_block1. Qed.

Lemma frame_footer : @footer ops res = mk_match true kGreeBlockFooter 6.
Proof.
  unfold footer, matchGreeData. rewrite frame_off_footer.
  change (Z.to_nat 67) with 67%nat. rewrite frame_drop_67.
  unfold after_block1. now rewrite matchData_timings by reflexivity.
Qed.

Lemma frame_off_gap : @off_gap ops res = 73.
Proof. unfold off_gap. now rewrite frame_off_footer, frame_footer. Qed.

Lemma frame_block2 :
  @block2 ops res = mk_match true (u64 (pack_lsb B2)) 64.
Proof.
  unfold block2, matchGreeData, off_block2. rewrite frame_off_gap.
  change (Z.to_nat (u16 (u16 (73 + 1) + 1))) with 75%nat.
  rewrite frame_drop_75. unfold after_gap.
  now rewrite matchData_timings by (now rewrite HB2).
Qed.

Lemma frame_off_trail : @off_trail ops res = 139.
Proof.
  unfold off_trail, off_block2. now rewrite frame_block2, frame_off_gap.
Qed.

(** A whole message passes every framing check. *)
Lemma frame_framing_ok : @framing_ok ops res 64 = true.
Proof.
  unfold framing_ok, long_enough, header_ok, footer_ok, gap_ok, trailer_ok.
  rewrite frame_block1, frame_footer, frame_block2, frame_off_gap,
    frame_off_trail.
  rewrite (rd_drop _ 73), (rd_drop _ (u16 (73 + 1))), (rd_drop _ 139),
    (rd_drop _ (u16 (139 + 1))).
  change (Z.to_nat 73) with 73%nat.
  change (Z.to_nat (u16 (73 + 1))) with (73 + 1)%nat.
  change (Z.to_nat 139) with 139%nat.
  change (Z.to_nat (u16 (139 + 1))) with (139 + 1)%nat.
  rewrite <- !drop_drop, frame_drop_73, frame_drop_139.
  change (rd (rawbuf res) (@kStartOffset ops)) with kGreeHdrMark.
  change (rd (rawbuf res) (u16 (@kStartOffset ops + 1))) with kGreeHdrSpace.
  unfold after_footer, after_block2.
  change (rd (?x :: _) 0) with x. change (rd (drop 1 (_ :: ?y :: _)) 0) with y.
  cbn [matchMark matchSpace matchAtLeast model_ops].
  rewrite (cmp_hdr_mark _ _ _ Hcmp), (cmp_hdr_space _ _ _ Hcmp),
    (cmp_bit_mark _ _ _ Hcmp), (cmp_msg_space _ _ _ Hcmp),
    (cmp_msg_at_least _ _ _ Hcmp).
  reflexivity.
Qed.

(** ... and leaves the two blocks in the state buffer. *)
Lemma frame_reconstructed :
  @reconstructed ops res
  = record_block 4 (record_block 4 st 0 (pack_lsb B1)) 4 (pack_lsb B2).
Proof.
  unfold reconstructed. rewrite frame_block1, frame_block2.
  cbn [data state frame_capture].
  pose proof (pack_lsb_range B1) as H1. pose proof (pack_lsb_range B2) as H2.
  rewrite HB1 in H1. rewrite HB2 in H2.
  change (2 ^ Z.of_nat 32) with 4294967296 in *.
  unfold u64. rewrite !Z.mod_small by lia. now rewrite !u32_small by lia.
Qed.

End Frame.

(** C1.  For comparators that accept the nominal durations and a checksum
    routine that keeps to its contract: a record of eight bytes with a valid
    checksum, sent by [sendGree] with no repeat and decoded from the capture
    by [decodeGree] with 64 bits in strict mode, is accepted and comes back
    byte for byte. *)
Theorem gree_round_trip (R st0 : list Z) :
  length R = 8%nat ->
  Forall is_u8 R ->
  validChecksum R kGreeStateLength = true ->
  (8 <= length st0)%nat ->
  exists tx res,
    sendGree R kGreeStateLength 0 = Some tx
    /\ @decodeGree ops cs (capture tx st0) kGreeBits true = (true, res)
    /\ take 8 (state res) = R
    /\ bits res = 64
    /\ decode_type res = GREE.
Proof.
  intros HR Hbytes Hvalid Hst0.
  destruct R as [|b0 [|b1 [|b2 [|b3 [|b4 [|b5 [|b6 [|b7 [|? ?]]]]]]]]];
    try discriminate HR. clear HR.
  repeat match goal with
         | Hb : Forall _ (_ :: _) |- _ =>
             apply Forall_cons in Hb as [? Hb]
         end.
  destruct (sendGree_timings b0 b1 b2 b3 b4 b5 b6 b7) as (tx & Htx & Hraw).
  exists tx. eexists. split; [exact Htx|].
  unfold capture, decodeGree. cbn [length]. rewrite length_map.
  assert (Hlen : Z.of_nat (S (length tx)) = 141).
  { rewrite <- (length_map duration), Hraw.
    unfold frame_timings, after_block1, after_footer, after_gap, block_bits.
    cbn [length].
    rewrite !length_app, !length_bit_timings, !length_app, !length_lsb_bits.
    reflexivity. }
  rewrite Hlen, Hraw.
  fold (frame_capture 0 st0 (block_bits b0 b1 b2 b3) (block_bits b4 b5 b6 b7)).
  assert (HB : forall a b c d, length (block_bits a b c d) = 32%nat).
  { intros. unfold block_bits. now rewrite !length_app, !length_lsb_bits. }
  rewrite decodeGree_run_framed by (apply frame_framing_ok; apply HB).
  rewrite frame_reconstructed by apply HB.
  rewrite !record_block_bytes by assumption.
  rewrite store_record by assumption.
  rewrite validChecksum_prefix by reflexivity. rewrite Hvalid.
  cbn [andb negb Z.eqb kGreeBits Pos.eqb is_success state bits decode_type].
  repeat split; reflexivity.
Qed.

End RoundTrip.

(** ** The theorems on concrete captures *)

Lemma sample_comparators_ok :
  comparators_ok (within 25 50) (within 25 50) (reaches 25 50).
Proof. split; reflexivity. Qed.

Lemma gree_round_trip_witness :
  exists tx res,
    sendGree sample_record kGreeStateLength 0 = Some tx
    /\ @decodeGree sample_ops nibble_sum (capture tx (replicate 8 0))
                   kGreeBits true = (true, res)
    /\ take 8 (state res) = sample_record
    /\ bits res = 64
    /\ decode_type res = GREE.
Proof.
  apply (@gree_round_trip nibble_sum 25 50 (within 25 50) (within 25 50)
                          (reaches 25 50) sample_comparators_ok
                          nibble_sum_contract sample_record (replicate 8 0));
    [ reflexivity
    | repeat constructor; unfold is_u8; lia
    | reflexivity
    | cbn; lia ].
Defined.

Lemma strict_rejects_bad_checksum_witness :
  let results := capture stale_tx (replicate 8 0) in
  @decodeGree sample_ops nibble_sum results 64 false
  = (true,
     mk_results GREE (@reconstructed sample_ops results) 64 (rawbuf results)
                (rawlen results))
  /\ fst (@decodeGree sample_ops nibble_sum results 64 true) = false.
Proof.
  apply (@strict_rejects_bad_checksum sample_ops nibble_sum
           (capture stale_tx (replicate 8 0)) 64);
    vm_compute; reflexivity.
Defined.

Lemma wrong_footer_rejected_witness :
  fst (@decodeGree sample_ops nibble_sum
                   (capture bad_footer_tx (replicate 8 0)) 64 false) = false.
Proof.
  apply (@wrong_footer_rejected sample_ops nibble_sum
           (capture bad_footer_tx (replicate 8 0)) 64 false).
  vm_compute. discriminate.
Defined.

Lemma gap_needs_matchSpace_witness :
  let results := capture sample_tx (replicate 8 0) in
  fst (@decodeGree sample_ops nibble_sum results 64 false) = true
  <-> @matchMark sample_ops
        (rd (rawbuf results) (@off_gap sample_ops results)) kGreeBitMark = true
      /\ @matchSpace sample_ops
           (rd (rawbuf results) (u16 (@off_gap sample_ops results + 1)))
           kGreeMsgSpace = true.
Proof.
  apply (@gap_needs_matchSpace sample_ops nibble_sum
           (capture sample_tx (replicate 8 0)) 64).
  vm_compute. reflexivity.
Defined.

(** C5 with a space of at least the message-space duration does not hold.
    On this capture every other framing check passes and the gap is a bit
    mark followed by a space of 40000 us, which is more than the message
    space and passes [matchAtLeast]; the decoder rejects it all the same, at
    the test of the gap space. *)
Lemma long_gap_rejected :
  let results := capture long_gap_tx (replicate 8 0) in
  @framing_but_gap sample_ops results 64 = true
  /\ @matchMark sample_ops
       (rd (rawbuf results) (@off_gap sample_ops results)) kGreeBitMark = true
  /\ rd (rawbuf results) (u16 (@off_gap sample_ops results + 1)) = 40000
  /\ kGreeMsgSpace <= 40000
  /\ @matchAtLeast sample_ops 40000 kGreeMsgSpace = true
  /\ fst (@decodeGree_run sample_ops nibble_sum results 64 false) = GapSpace
  /\ fst (@decodeGree sample_ops nibble_sum results 64 false) = false.
Proof. vm_compute. repeat split; congruence. Qed.

Lemma decodeGree_reports_64_bits_witness :
  let run := @decodeGree_run sample_ops nibble_sum
               (capture sample_tx (replicate 8 0)) 64 true in
  fst run <> LengthError
  /\ (fst run = Success -> bits (snd run) = 64 /\ decode_type (snd run) = GREE).
Proof.
  apply (@decodeGree_reports_64_bits sample_ops nibble_sum
           (capture sample_tx (replicate 8 0)) 64 true).
  vm_compute. reflexivity.
Defined.

(** * More of the class: the remaining setters, raw access, both senders,
    the decoder as a whole, and the common representation *)

(** ** One setter, all getters *)

(** [a |= v;] leaves a field under a mask disjoint from [v] as it was. *)
Lemma byte_or_other b v M' :
  0 <= M' < 256 -> Z.land v M' = 0 ->
  Z.land (u8 (Z.lor b v)) M' = Z.land b M'.
Proof.
  intros HM Hv. apply Z.bits_inj'. intros n Hn. push_testbit.
  pose proof (testbit_mask_lt M' n HM) as Hlt.
  pose proof (testbit_land_0 v M' n Hv) as Hv0.
  destruct (Z.testbit M' n); [|now rewrite !andb_false_r].
  rewrite Hv0 by reflexivity.
  replace (n <? 8) with true by (symmetry; apply Z.ltb_lt; auto).
  now rewrite orb_false_r.
Qed.

(** [a &= ~M;] leaves a field under a mask disjoint from [M] as it was. *)
Lemma byte_clear_other b M M' :
  0 <= M' < 256 -> Z.land M M' = 0 ->
  Z.land (u8 (Z.land b (Z.lnot M))) M' = Z.land b M'.
Proof.
  intros HM Hd. apply Z.bits_inj'. intros n Hn. push_testbit.
  pose proof (testbit_mask_lt M' n HM) as Hlt.
  pose proof (testbit_land_0 M M' n Hd) as HM0.
  destruct (Z.testbit M' n); [|now rewrite !andb_false_r].
  rewrite HM0 by reflexivity.
  replace (n <? 8) with true by (symmetry; apply Z.ltb_lt; auto).
  cbn. now rewrite !andb_true_r.
Qed.

(** A value of at most [k] bits has nothing in common with a mask that
    avoids the low [k] bits. *)
Lemma land_low_high v k M' :
  0 <= k -> 0 <= v < 2 ^ k -> Z.land (Z.ones k) M' = 0 -> Z.land v M' = 0.
Proof.
  intros Hk Hv HM. rewrite <- (land_small v k) by assumption.
  now rewrite <- Z.land_assoc, HM, Z.land_0_r.
Qed.

(** A flag written with [a &= ~(1 << k); a |= (on << k);] reads back. *)
Lemma flag_write_read b k (on_ : bool) :
  0 <= k < 8 ->
  Z.testbit (u8 (Z.lor (u8 (Z.land b (Z.lnot (2 ^ k))))
                       (Z.shiftl (Z.b2z on_) k))) k = on_.
Proof.
  intros Hk. push_testbit. rewrite Z.pow2_bits_true, Z.sub_diag by lia.
  replace (k <? 8) with true by (symmetry; apply Z.ltb_lt; lia).
  destruct on_; cbn; [apply orb_true_r|]. now rewrite andb_false_r.
Qed.

Lemma flag_truthy b k (on_ : bool) :
  0 <= k < 8 ->
  truthy (Z.land (u8 (Z.lor (u8 (Z.land b (Z.lnot (2 ^ k))))
                            (Z.shiftl (Z.b2z on_) k))) (2 ^ k)) = on_.
Proof.
  intros Hk. rewrite truthy_land_bit by lia. now apply flag_write_read.
Qed.

Ltac unfold_fields :=
  unfold fields, getPower, getMode, getTemp, getFan, getLight, getXFan,
    getSleep, getTurbo, getSwingVerticalAuto, getSwingVerticalPosition,
    kGreePower1Mask, kGreePower2Mask, kGreeModeMask, kGreeFanMask,
    kGreeLightMask, kGreeXfanMask, kGreeSleepMask, kGreeTurboMask,
    kGreeSwingAutoMask, kGreeSwingPosMask.

(** Side conditions of the field lemmas on concrete masks. *)
Ltac mask_side :=
  first [ lia | reflexivity
        | match goal with
          | |- context [Z.b2z ?b] => destruct b; reflexivity
          end ].

Lemma fields_setLight st b :
  is_state st ->
  fields (setLight st b)
  = (getPower st, getMode st, getTemp st, getFan st, b, getXFan st,
     getSleep st, getTurbo st, getSwingVerticalAuto st,
     getSwingVerticalPosition st).
Proof.
  intros Hst. unfold_fields. unfold setLight, kGreeLightMask. array_simpl.
  replace (truthy (Z.land (u8 (Z.lor (u8 (Z.land (rd st 2) (Z.lnot 32)))
                                     (Z.shiftl (Z.b2z b) 5))) 32)) with b
    by (symmetry; apply (flag_truthy (rd st 2) 5 b); lia).
  rewrite (field_write_other _ _ 32 8), (field_write_other _ _ 32 128),
    (field_write_other _ _ 32 16) by mask_side.
  reflexivity.
Qed.

Lemma fields_setXFan st b :
  is_state st ->
  fields (setXFan st b)
  = (getPower st, getMode st, getTemp st, getFan st, getLight st, b,
     getSleep st, getTurbo st, getSwingVerticalAuto st,
     getSwingVerticalPosition st).
Proof.
  intros Hst. unfold_fields. unfold setXFan, kGreeXfanMask. array_simpl.
  replace (truthy (Z.land (u8 (Z.lor (u8 (Z.land (rd st 2) (Z.lnot 128)))
                                     (Z.shiftl (Z.b2z b) 7))) 128)) with b
    by (symmetry; apply (flag_truthy (rd st 2) 7 b); lia).
  rewrite (field_write_other _ _ 128 8), (field_write_other _ _ 128 32),
    (field_write_other _ _ 128 16) by mask_side.
  reflexivity.
Qed.

Lemma fields_setTurbo st b :
  is_state st ->
  fields (setTurbo st b)
  = (getPower st, getMode st, getTemp st, getFan st, getLight st,
     getXFan st, getSleep st, b, getSwingVerticalAuto st,
     getSwingVerticalPosition st).
Proof.
  intros Hst. unfold_fields. unfold setTurbo, kGreeTurboMask. array_simpl.
  replace (truthy (Z.land (u8 (Z.lor (u8 (Z.land (rd st 2) (Z.lnot 16)))
                                     (Z.shiftl (Z.b2z b) 4))) 16)) with b
    by (symmetry; apply (flag_truthy (rd st 2) 4 b); lia).
  rewrite (field_write_other _ _ 16 8), (field_write_other _ _ 16 32),
    (field_write_other _ _ 16 128) by mask_side.
  reflexivity.
Qed.

Lemma fields_setSleep st b :
  is_state st ->
  fields (setSleep st b)
  = (getPower st, getMode st, getTemp st, getFan st, getLight st,
     getXFan st, b, getTurbo st, getSwingVerticalAuto st,
     getSwingVerticalPosition st).
Proof.
  intros Hst. unfold_fields. unfold setSleep, kGreeSleepMask. array_simpl.
  replace (truthy (Z.land (u8 (Z.lor (u8 (Z.land (rd st 0) (Z.lnot 128)))
                                     (Z.shiftl (Z.b2z b) 7))) 128)) with b
    by (symmetry; apply (flag_truthy (rd st 0) 7 b); lia).
  rewrite (field_write_other _ _ 128 8), (field_write_other _ _ 128 7),
    (field_write_other _ _ 128 48), (field_write_other _ _ 128 64)
    by mask_side.
  reflexivity.
Qed.

Lemma power_bit_set b : truthy (Z.land (u8 (Z.lor b 8)) 8) = true.
Proof.
  change 8 with (2 ^ 3) at 2. rewrite truthy_land_bit by lia.
  push_testbit; kill_bits.
Qed.

Lemma power_bit_clear b : truthy (Z.land (u8 (Z.land b (Z.lnot 8))) 8) = false.
Proof.
  change 8 with (2 ^ 3) at 2. rewrite truthy_land_bit by lia.
  push_testbit; kill_bits.
Qed.

Lemma fields_setPower st b :
  is_state st ->
  fields (setPower st b)
  = (b, getMode st, getTemp st, getFan st, getLight st, getXFan st,
     getSleep st, getTurbo st, getSwingVerticalAuto st,
     getSwingVerticalPosition st).
Proof.
  intros Hst. unfold_fields. unfold setPower.
  destruct b; [unfold on|unfold off];
    unfold kGreePower1Mask, kGreePower2Mask; array_simpl.
  - rewrite !power_bit_set.
    rewrite ?(byte_or_other _ 8 7), ?(byte_or_other _ 8 48),
      ?(byte_or_other _ 8 32), ?(byte_or_other _ 8 128),
      ?(byte_or_other _ 8 16), ?(byte_or_other _ 8 64) by mask_side.
    reflexivity.
  - rewrite !power_bit_clear.
    rewrite ?(byte_clear_other _ 8 7), ?(byte_clear_other _ 8 48),
      ?(byte_clear_other _ 8 32), ?(byte_clear_other _ 8 128),
      ?(byte_clear_other _ 8 16), ?(byte_clear_other _ 8 64) by mask_side.
    reflexivity.
Qed.

Section SetterFields.
Context {codes : GreeCodes}.

Lemma fields_setTemp st t :
  is_state st -> is_u8 t ->
  fields (setTemp st t)
  = (getPower st, getMode st,
     (if getMode st =? kGreeAuto then 25 else Z.min 30 (Z.max 16 t)),
     getFan st, getLight st, getXFan st, getSleep st, getTurbo st,
     getSwingVerticalAuto st, getSwingVerticalPosition st).
Proof.
  intros Hst Ht. unfold_fields. unfold setTemp, getMode, kGreeModeMask.
  unfold kGreeMinTemp, kGreeMaxTemp. array_simpl.
  rewrite nibble_stored by (destruct (Z.land (rd st 0) 7 =? kGreeAuto); lia).
  rewrite u8_small by (destruct (Z.land (rd st 0) 7 =? kGreeAuto); lia).
  replace ((if Z.land (rd st 0) 7 =? kGreeAuto then 25
            else Z.min 30 (Z.max 16 t)) - 16 + 16)
    with (if Z.land (rd st 0) 7 =? kGreeAuto then 25
          else Z.min 30 (Z.max 16 t)) by lia.
  reflexivity.
Qed.

Lemma fan_stored b fan :
  0 <= fan <= 3 ->
  Z.shiftr (Z.land (u8 (Z.lor (u8 (Z.land b (Z.lnot 48))) (Z.shiftl fan 4)))
                   48) 4 = fan.
Proof.
  intros Hfan.
  assert (Hc : fan = 0 \/ fan = 1 \/ fan = 2 \/ fan = 3) by lia.
  destruct Hc as [-> | [-> | [-> | ->]]];
    now rewrite field_write_read by mask_side.
Qed.

Lemma fan_outside fan M' :
  0 <= fan <= 3 -> Z.land 48 M' = 0 -> Z.land (Z.shiftl fan 4) M' = 0.
Proof.
  intros Hfan HM.
  assert (Hin : Z.land (Z.shiftl fan 4) 48 = Z.shiftl fan 4).
  { assert (Hc : fan = 0 \/ fan = 1 \/ fan = 2 \/ fan = 3) by lia.
    destruct Hc as [-> | [-> | [-> | ->]]]; reflexivity. }
  now rewrite <- Hin, <- Z.land_assoc, HM, Z.land_0_r.
Qed.

Lemma fields_setFan st s :
  is_state st -> is_u8 s ->
  fields (setFan st s)
  = (getPower st, getMode st, getTemp st,
     (if getMode st =? kGreeDry then 1 else Z.min 3 s),
     getLight st, getXFan st, getSleep st, getTurbo st,
     getSwingVerticalAuto st, getSwingVerticalPosition st).
Proof.
  intros Hst Hs. unfold_fields. unfold setFan, getMode, kGreeModeMask.
  unfold kGreeFanMax, kGreeFanMask. array_simpl.
  set (fan := if Z.land (rd st 0) 7 =? kGreeDry then 1 else Z.min 3 s).
  assert (Hfan : 0 <= fan <= 3).
  { subst fan. unfold is_u8 in Hs.
    destruct (Z.land (rd st 0) 7 =? kGreeDry); lia. }
  rewrite fan_stored by assumption.
  rewrite (field_write_other _ _ 48 8), (field_write_other _ _ 48 7),
    (field_write_other _ _ 48 128), (field_write_other _ _ 48 64)
    by first [lia | reflexivity | now apply fan_outside].
  reflexivity.
Qed.

Lemma fields_setSwingVertical st a p :
  is_state st ->
  fields (setSwingVertical st a p)
  = (getPower st, getMode st, getTemp st, getFan st, getLight st,
     getXFan st, getSleep st, getTurbo st,
     getSwingVerticalAuto (setSwingVertical st a p),
     getSwingVerticalPosition (setSwingVertical st a p)).
Proof.
  intros Hst. unfold_fields. unfold setSwingVertical, kGreeSwingAutoMask.
  array_simpl.
  rewrite (field_write_other _ _ 64 8), (field_write_other _ _ 64 7),
    (field_write_other _ _ 64 48), (field_write_other _ _ 64 128)
    by mask_side.
  reflexivity.
Qed.

End SetterFields.

(** [remote_state[0] &= ~kGreeModeMask; remote_state[0] |= mode;], the end
    of [setMode]. *)
Lemma fields_mode_bits st v :
  is_state st -> 0 <= v < 8 ->
  fields (wr8 (wr8 st 0 (Z.land (rd st 0) (Z.lnot kGreeModeMask))) 0
              (Z.lor (rd (wr8 st 0 (Z.land (rd st 0) (Z.lnot kGreeModeMask)))
                         0) v))
  = (getPower st, v, getTemp st, getFan st, getLight st, getXFan st,
     getSleep st, getTurbo st, getSwingVerticalAuto st,
     getSwingVerticalPosition st).
Proof.
  intros Hst Hv. unfold_fields. array_simpl.
  rewrite (field_write_read _ v 7)
    by (try lia; change 7 with (Z.ones 3); apply land_small; lia).
  rewrite (field_write_other _ _ 7 8), (field_write_other _ _ 7 48),
    (field_write_other _ _ 7 128), (field_write_other _ _ 7 64)
    by first [lia | reflexivity | now apply (land_low_high v 3)].
  reflexivity.
Qed.

Section SetMode.
Context {codes : GreeCodes}.
Hypothesis Hcodes : codes_ok.

Lemma mode_code_range m : m ∈ mode_codes -> 0 <= m < 8.
Proof.
  intros Hm. pose proof (mode_codes_fit Hcodes) as Hfit.
  rewrite Forall_forall in Hfit. now apply Hfit.
Qed.

Lemma dry_is_not_auto : kGreeDry <> kGreeAuto.
Proof.
  pose proof (mode_codes_distinct Hcodes) as Hnd. unfold mode_codes in Hnd.
  apply NoDup_cons in Hnd as [Hnotin _]. intros Heq.
  apply Hnotin. rewrite <- Heq. apply list_elem_of_here.
Qed.

Lemma fields_setMode st m :
  is_state st ->
  fields (setMode st m)
  = (getPower st,
     (if bool_decide (m ∈ mode_codes) then m else kGreeAuto),
     (if m =? kGreeAuto then 25 else getTemp st),
     (if m =? kGreeDry then 1 else getFan st),
     getLight st, getXFan st, getSleep st, getTurbo st,
     getSwingVerticalAuto st, getSwingVerticalPosition st).
Proof.
  intros Hst. pose proof dry_is_not_auto as Hda.
  assert (Hauto : 0 <= kGreeAuto < 8)
    by apply mode_code_range, list_elem_of_here.
  unfold setMode.
  destruct (Z.eqb_spec m kGreeAuto) as [->|Hna].
  - rewrite bool_decide_eq_true_2 by apply list_elem_of_here.
    replace (kGreeAuto =? kGreeDry) with false
      by (symmetry; apply Z.eqb_neq; congruence).
    rewrite fields_mode_bits
      by (try assumption; unfold setTemp; now apply is_state_wr8).
    pose proof (fields_setTemp st 25 Hst ltac:(unfold is_u8; lia)) as E.
    unfold fields in E. injection E as -> _ -> -> -> -> -> -> -> ->.
    now destruct (getMode st =? kGreeAuto).
  - destruct (Z.eqb_spec m kGreeDry) as [->|Hnd].
    + rewrite bool_decide_eq_true_2
        by (unfold mode_codes; rewrite !elem_of_cons; tauto).
      rewrite fields_mode_bits;
        [|unfold setFan; now do 2 apply is_state_wr8
         |apply mode_code_range; unfold mode_codes;
          rewrite !elem_of_cons; tauto].
      pose proof (fields_setFan st 1 Hst ltac:(unfold is_u8; lia)) as E.
      unfold fields in E. injection E as -> _ -> -> -> -> -> -> -> ->.
      now destruct (getMode st =? kGreeDry).
    + destruct ((m =? kGreeCool) || (m =? kGreeFan) || (m =? kGreeHeat))
        eqn:Hk.
      * assert (Hin : m ∈ mode_codes).
        { unfold mode_codes. rewrite !elem_of_cons.
          rewrite !orb_true_iff, !Z.eqb_eq in Hk. tauto. }
        rewrite bool_decide_eq_true_2 by assumption.
        now rewrite fields_mode_bits by (try assumption; now apply mode_code_range).
      * assert (Hout : m ∉ mode_codes).
        { unfold mode_codes. rewrite !elem_of_cons, elem_of_nil.
          rewrite !orb_false_iff, !Z.eqb_neq in Hk. tauto. }
        rewrite bool_decide_eq_false_2 by assumption.
        now rewrite fields_mode_bits by assumption.
Qed.

End SetMode.

(** ** The setters, field by field *)

(** X1.  Each of [setLight], [setXFan], [setSleep] and [setTurbo] makes its
    own getter return the argument and changes no other field the getters
    read. *)
Theorem flag_setters_fields st b :
  is_state st ->
  fields (setLight st b)
  = (getPower st, getMode st, getTemp st, getFan st, b, getXFan st,
     getSleep st, getTurbo st, getSwingVerticalAuto st,
     getSwingVerticalPosition st)
  /\ fields (setXFan st b)
     = (getPower st, getMode st, getTemp st, getFan st, getLight st, b,
        getSleep st, getTurbo st, getSwingVerticalAuto st,
        getSwingVerticalPosition st)
  /\ fields (setSleep st b)
     = (getPower st, getMode st, getTemp st, getFan st, getLight st,
        getXFan st, b, getTurbo st, getSwingVerticalAuto st,
        getSwingVerticalPosition st)
  /\ fields (setTurbo st b)
     = (getPower st, getMode st, getTemp st, getFan st, getLight st,
        getXFan st, getSleep st, b, getSwingVerticalAuto st,
        getSwingVerticalPosition st).
Proof.
  intros Hst. repeat split.
  - now apply fields_setLight.
  - now apply fields_setXFan.
  - now apply fields_setSleep.
  - now apply fields_setTurbo.
Qed.

Lemma flag_setters_fields_witness :
  fields (setLight cool_state false)
  = (getPower cool_state, getMode cool_state, getTemp cool_state,
     getFan cool_state, false, getXFan cool_state, getSleep cool_state,
     getTurbo cool_state, getSwingVerticalAuto cool_state,
     getSwingVerticalPosition cool_state)
  /\ fields (setXFan cool_state false)
     = (getPower cool_state, getMode cool_state, getTemp cool_state,
        getFan cool_state, getLight cool_state, false, getSleep cool_state,
        getTurbo cool_state, getSwingVerticalAuto cool_state,
        getSwingVerticalPosition cool_state)
  /\ fields (setSleep cool_state false)
     = (getPower cool_state, getMode cool_state, getTemp cool_state,
        getFan cool_state, getLight cool_state, getXFan cool_state, false,
        getTurbo cool_state, getSwingVerticalAuto cool_state,
        getSwingVerticalPosition cool_state)
  /\ fields (setTurbo cool_state false)
     = (getPower cool_state, getMode cool_state, getTemp cool_state,
        getFan cool_state, getLight cool_state, getXFan cool_state,
        getSleep cool_state, false, getSwingVerticalAuto cool_state,
        getSwingVerticalPosition cool_state).
Proof. apply (flag_setters_fields cool_state false). reflexivity. Defined.

(** X2.  [setPower] (through [on] and [off]) makes [getPower] return the
    argument, although it writes two bytes, and changes no other field the
    getters read. *)
Theorem setPower_fields st b :
  is_state st ->
  is_state (setPower st b)
  /\ fields (setPower st b)
     = (b, getMode st, getTemp st, getFan st, getLight st, getXFan st,
        getSleep st, getTurbo st, getSwingVerticalAuto st,
        getSwingVerticalPosition st).
Proof.
  intros Hst. split; [|now apply fields_setPower].
  destruct b; cbn [setPower]; unfold on, off;
    repeat apply is_state_wr8; assumption.
Qed.

Lemma setPower_fields_witness :
  is_state (setPower cool_state true)
  /\ fields (setPower cool_state true)
     = (true, getMode cool_state, getTemp cool_state, getFan cool_state,
        getLight cool_state, getXFan cool_state, getSleep cool_state,
        getTurbo cool_state, getSwingVerticalAuto cool_state,
        getSwingVerticalPosition cool_state).
Proof. apply (setPower_fields cool_state true). reflexivity. Defined.

Section SetterTheorems.
Context {codes : GreeCodes}.

(** X3.  [setTemp] writes the temperature field only: 25 in Auto mode, the
    argument clamped to 16..30 otherwise; power, mode, fan, the four flags
    and the swing fields are as before. *)
Theorem setTemp_fields st t :
  is_state st -> is_u8 t ->
  is_state (setTemp st t)
  /\ fields (setTemp st t)
     = (getPower st, getMode st,
        (if getMode st =? kGreeAuto then 25 else Z.min 30 (Z.max 16 t)),
        getFan st, getLight st, getXFan st, getSleep st, getTurbo st,
        getSwingVerticalAuto st, getSwingVerticalPosition st).
Proof.
  intros Hst Ht. split; [|now apply fields_setTemp].
  unfold setTemp. repeat apply is_state_wr8; assumption.
Qed.

(** X4.  [setFan] writes the fan field only: 1 in Dry mode, the smaller of
    the argument and [kGreeFanMax] otherwise, so the speed read back is
    always between [kGreeFanAuto] and [kGreeFanMax]; every other field is
    as before. *)
Theorem setFan_fields st s :
  is_state st -> is_u8 s ->
  fields (setFan st s)
  = (getPower st, getMode st, getTemp st,
     (if getMode st =? kGreeDry then 1 else Z.min kGreeFanMax s),
     getLight st, getXFan st, getSleep st, getTurbo st,
     getSwingVerticalAuto st, getSwingVerticalPosition st)
  /\ kGreeFanAuto <= getFan (setFan st s) <= kGreeFanMax.
Proof.
  intros Hst Hs. pose proof (fields_setFan st s Hst Hs) as E.
  split; [exact E|]. unfold fields in E.
  injection E as _ _ _ -> _ _ _ _ _ _.
  unfold kGreeFanAuto, kGreeFanMax, is_u8 in *.
  destruct (getMode st =? kGreeDry); lia.
Qed.

Lemma swing_flag_stored st a p :
  is_state st -> getSwingVerticalAuto (setSwingVertical st a p) = a.
Proof.
  intros Hst. unfold getSwingVerticalAuto, kGreeSwingAutoMask. change 64 with (2 ^ 6).
  rewrite truthy_land_bit by lia.
  unfold setSwingVertical. array_simpl. apply swing_auto_bit.
Qed.

(** X5.  [setSwingVertical] writes the two swing fields only: power, mode,
    temperature, fan and the four flags are as before, whatever the
    arguments. *)
Theorem setSwingVertical_frame st a p :
  is_state st ->
  is_state (setSwingVertical st a p)
  /\ fields (setSwingVertical st a p)
     = (getPower st, getMode st, getTemp st, getFan st, getLight st,
        getXFan st, getSleep st, getTurbo st,
        getSwingVerticalAuto (setSwingVertical st a p),
        getSwingVerticalPosition (setSwingVertical st a p))
  /\ getSwingVerticalAuto (setSwingVertical st a p) = a.
Proof.
  intros Hst. split; [|split].
  - unfold setSwingVertical.
    repeat match goal with
           | |- context [if ?c then _ else _] => destruct c
           end;
    repeat apply is_state_wr8; assumption.
  - now apply fields_setSwingVertical.
  - now apply swing_flag_stored.
Qed.

End SetterTheorems.

Lemma setTemp_fields_witness :
  is_state (@setTemp sample_codes cool_state 40)
  /\ fields (@setTemp sample_codes cool_state 40)
     = (getPower cool_state, getMode cool_state,
        (if getMode cool_state =? @kGreeAuto sample_codes then 25
         else Z.min 30 (Z.max 16 40)),
        getFan cool_state, getLight cool_state, getXFan cool_state,
        getSleep cool_state, getTurbo cool_state,
        getSwingVerticalAuto cool_state, getSwingVerticalPosition cool_state).
Proof.
  apply (@setTemp_fields sample_codes cool_state 40);
    [reflexivity | unfold is_u8; lia].
Defined.

Lemma setFan_fields_witness :
  fields (@setFan sample_codes cool_state 200)
  = (getPower cool_state, getMode cool_state, getTemp cool_state,
     (if getMode cool_state =? @kGreeDry sample_codes then 1
      else Z.min kGreeFanMax 200),
     getLight cool_state, getXFan cool_state, getSleep cool_state,
     getTurbo cool_state, getSwingVerticalAuto cool_state,
     getSwingVerticalPosition cool_state)
  /\ kGreeFanAuto <= getFan (@setFan sample_codes cool_state 200)
     <= kGreeFanMax.
Proof.
  apply (@setFan_fields sample_codes cool_state 200);
    [reflexivity | unfold is_u8; lia].
Defined.

Lemma setSwingVertical_frame_witness :
  is_state (@setSwingVertical sample_codes cool_state true 7)
  /\ fields (@setSwingVertical sample_codes cool_state true 7)
     = (getPower cool_state, getMode cool_state, getTemp cool_state,
        getFan cool_state, getLight cool_state, getXFan cool_state,
        getSleep cool_state, getTurbo cool_state,
        getSwingVerticalAuto (@setSwingVertical sample_codes cool_state true 7),
        getSwingVerticalPosition
          (@setSwingVertical sample_codes cool_state true 7))
  /\ getSwingVerticalAuto (@setSwingVertical sample_codes cool_state true 7)
     = true.
Proof.
  apply (@setSwingVertical_frame sample_codes cool_state true 7).
  reflexivity.
Defined.

Section SetModeTheorems.
Context {codes : GreeCodes}.
Hypothesis Hcodes : codes_ok.

(** X6.  [setMode] in full: the mode read back is the argument when it is
    one of the five codes and Auto otherwise; the temperature becomes 25
    exactly when the argument is the Auto code, the fan speed becomes 1
    exactly when it is the Dry code; power, the four flags and the swing
    fields are as before. *)
Theorem setMode_fields st m :
  is_state st ->
  fields (setMode st m)
  = (getPower st,
     (if bool_decide (m ∈ mode_codes) then m else kGreeAuto),
     (if m =? kGreeAuto then 25 else getTemp st),
     (if m =? kGreeDry then 1 else getFan st),
     getLight st, getXFan st, getSleep st, getTurbo st,
     getSwingVerticalAuto st, getSwingVerticalPosition st).
Proof. intros Hst. now apply fields_setMode. Qed.

End SetModeTheorems.

Lemma setMode_fields_witness :
  fields (@setMode sample_codes cool_state 2)
  = (getPower cool_state,
     (if bool_decide (2 ∈ @mode_codes sample_codes) then 2
      else @kGreeAuto sample_codes),
     (if 2 =? @kGreeAuto sample_codes then 25 else getTemp cool_state),
     (if 2 =? @kGreeDry sample_codes then 1 else getFan cool_state),
     getLight cool_state, getXFan cool_state, getSleep cool_state,
     getTurbo cool_state, getSwingVerticalAuto cool_state,
     getSwingVerticalPosition cool_state).
Proof.
  apply (@setMode_fields sample_codes sample_codes_ok cool_state 2).
  reflexivity.
Defined.

(** ** The two locks *)

Section Locks.
Context {codes : GreeCodes}.
Hypothesis Hcodes : codes_ok.

Lemma is_state_call c st : is_state st -> is_state (call c st).
Proof.
  intros Hst.
  destruct c as [[]| | | |[]|[]|[]|[]|];
    cbn [call setPower]; unfold on, off, setTemp, setFan, setMode,
      setLight, setXFan, setSleep, setTurbo, setSwingVertical, setTemp,
      setFan;
    repeat match goal with
           | |- context [if ?c then _ else _] => destruct c
           end;
    repeat apply is_state_wr8; assumption.
Qed.

(** What one call does to the three fields the locks speak of. *)
Lemma call_mode_temp_fan c st :
  is_state st -> setter_ok c ->
  getMode (call c st)
  = match c with SetMode m => m | _ => getMode st end
  /\ getTemp (call c st)
     = match c with
       | SetTemp t =>
           if getMode st =? kGreeAuto then 25 else Z.min 30 (Z.max 16 t)
       | SetMode m => if m =? kGreeAuto then 25 else getTemp st
       | _ => getTemp st
       end
  /\ getFan (call c st)
     = match c with
       | SetFan s => if getMode st =? kGreeDry then 1 else Z.min 3 s
       | SetMode m => if m =? kGreeDry then 1 else getFan st
       | _ => getFan st
       end.
Proof.
  intros Hst Hok.
  destruct c as [b|t|s|m|b|b|b|b|a p]; cbn [call setter_ok] in *.
  - pose proof (fields_setPower st b Hst) as E. unfold fields in E.
    now injection E as _ -> -> -> _ _ _ _ _ _.
  - pose proof (fields_setTemp st t Hst Hok) as E. unfold fields in E.
    now injection E as _ -> -> -> _ _ _ _ _ _.
  - pose proof (fields_setFan st s Hst Hok) as E. unfold fields in E.
    now injection E as _ -> -> -> _ _ _ _ _ _.
  - pose proof (fields_setMode Hcodes st m Hst) as E. unfold fields in E.
    rewrite bool_decide_eq_true_2 in E by assumption.
    now injection E as _ -> -> -> _ _ _ _ _ _.
  - pose proof (fields_setLight st b Hst) as E. unfold fields in E.
    now injection E as _ -> -> -> _ _ _ _ _ _.
  - pose proof (fields_setXFan st b Hst) as E. unfold fields in E.
    now injection E as _ -> -> -> _ _ _ _ _ _.
  - pose proof (fields_setSleep st b Hst) as E. unfold fields in E.
    now injection E as _ -> -> -> _ _ _ _ _ _.
  - pose proof (fields_setTurbo st b Hst) as E. unfold fields in E.
    now injection E as _ -> -> -> _ _ _ _ _ _.
  - pose proof (fields_setSwingVertical st a p Hst) as E. unfold fields in E.
    now injection E as _ -> -> -> _ _ _ _.
Qed.

Lemma call_keeps_locks c st :
  is_state st -> setter_ok c -> locks st -> locks (call c st).
Proof.
  intros Hst Hok [Hauto Hdry].
  destruct (call_mode_temp_fan c st Hst Hok) as (Hm & Ht & Hf).
  pose proof (dry_is_not_auto Hcodes) as Hda.
  unfold locks. rewrite Hm, Ht, Hf.
  destruct c; split; intros Hmode; auto.
  - now rewrite Hmode, Z.eqb_refl.
  - now rewrite Hmode, Z.eqb_refl.
  - now rewrite Hmode, Z.eqb_refl.
  - now rewrite Hmode, Z.eqb_refl.
Qed.

(** X7.  The two locks are an invariant of the setters: if Auto has 25
    degrees and Dry has fan speed 1 before a sequence of setter calls with
    arguments of their types and known mode codes, the same holds after it. *)
Theorem setters_keep_locks (calls : list setter) (st : list Z) :
  is_state st -> Forall setter_ok calls -> locks st ->
  locks (foldl (fun s c => call c s) st calls)
  /\ is_state (foldl (fun s c => call c s) st calls).
Proof.
  revert st. induction calls as [|c calls IH]; intros st Hst Hok Hlocks.
  - split; assumption.
  - apply Forall_cons in Hok as [Hc Hok]. cbn [foldl].
    apply IH; [now apply is_state_call | assumption
              | now apply call_keeps_locks].
Qed.

(** X8.  A mode that is none of the five codes is stored as Auto without
    the 25 degrees Auto is restricted to: after such a call the locks hold
    exactly when the temperature was 25 already. *)
Theorem setMode_unknown_lock st m :
  is_state st -> m ∉ mode_codes ->
  getMode (setMode st m) = kGreeAuto
  /\ getTemp (setMode st m) = getTemp st
  /\ (locks (setMode st m) <-> getTemp st = 25).
Proof.
  intros Hst Hm. pose proof (fields_setMode Hcodes st m Hst) as E.
  unfold fields in E. rewrite bool_decide_eq_false_2 in E by assumption.
  assert (Hna : (m =? kGreeAuto) = false).
  { apply Z.eqb_neq. intros ->. apply Hm. unfold mode_codes.
    apply list_elem_of_here. }
  rewrite Hna in E. injection E as _ Hmode Htemp _ _ _ _ _ _ _.
  split; [exact Hmode|]. split; [exact Htemp|].
  unfold locks. rewrite Hmode, Htemp. split.
  - intros [Hauto _]. now apply Hauto.
  - intros H25. split; [now intros _|].
    intros Hdry. symmetry in Hdry. now apply (dry_is_not_auto Hcodes) in Hdry.
Qed.

End Locks.

Lemma setters_keep_locks_witness :
  @locks sample_codes
    (foldl (fun s c => @call sample_codes c s) reset_state
           [SetMode 2; SetFan 3; SetPower true; SetMode 0; SetTemp 30])
  /\ is_state
       (foldl (fun s c => @call sample_codes c s) reset_state
              [SetMode 2; SetFan 3; SetPower true; SetMode 0; SetTemp 30]).
Proof.
  apply (@setters_keep_locks sample_codes sample_codes_ok
           [SetMode 2; SetFan 3; SetPower true; SetMode 0; SetTemp 30]
           reset_state).
  - reflexivity.
  - repeat (apply Forall_cons; split); try apply Forall_nil_2;
      cbn [setter_ok]; unfold is_u8, mode_codes; cbn;
      rewrite ?elem_of_cons; try lia; exact I.
  - split; intros H; [reflexivity|]. vm_compute in H. discriminate.
Defined.

Lemma sample_mode_7_unknown : 7 ∉ (@mode_codes sample_codes).
Proof.
  unfold mode_codes. cbn. rewrite !elem_of_cons, elem_of_nil. lia.
Qed.

Lemma setMode_unknown_lock_witness :
  getMode (@setMode sample_codes (@setTemp sample_codes cool_state 20) 7)
  = @kGreeAuto sample_codes
  /\ getTemp (@setMode sample_codes (@setTemp sample_codes cool_state 20) 7)
     = getTemp (@setTemp sample_codes cool_state 20)
  /\ (@locks sample_codes
        (@setMode sample_codes (@setTemp sample_codes cool_state 20) 7)
      <-> getTemp (@setTemp sample_codes cool_state 20) = 25).
Proof.
  apply (@setMode_unknown_lock sample_codes sample_codes_ok
           (@setTemp sample_codes cool_state 20) 7);
    [reflexivity | exact sample_mode_7_unknown].
Defined.

(** ** Reset, raw access and [fixup] *)

Lemma stateReset_bytes st :
  is_state st -> stateReset st = [0; 9; 32; 80; 0; 32; 0; 80].
Proof.
  unfold is_state. intros Hst.
  destruct st as [|b0 [|b1 [|b2 [|b3 [|b4 [|b5 [|b6 [|b7 [|? ?]]]]]]]]];
    try discriminate Hst.
  reflexivity.
Qed.

Lemma setRaw_bytes st code :
  is_state st -> (8 <= length code)%nat ->
  setRaw st code = map u8 (take 8 code).
Proof.
  unfold is_state. intros Hst Hcode.
  destruct st as [|b0 [|b1 [|b2 [|b3 [|b4 [|b5 [|b6 [|b7 [|? ?]]]]]]]]];
    try discriminate Hst.
  do 8 (destruct code as [|? code]; [cbn in Hcode; lia|]).
  reflexivity.
Qed.

Lemma map_u8_bytes l : Forall is_u8 l -> map u8 l = l.
Proof.
  induction 1 as [|x l Hx _ IH]; [reflexivity|].
  cbn [map]. now rewrite IH, u8_small by exact Hx.
Qed.

(** A byte is its two nibbles put together. *)
Lemma nibbles_rejoin b :
  is_u8 b -> u8 (Z.lor (Z.shiftl (Z.shiftr b 4) 4) (Z.land b 0xF)) = b.
Proof.
  unfold is_u8. intros Hb. apply Z.bits_inj'. intros n Hn. push_testbit.
  destruct (Z.lt_ge_cases n 4).
  - rewrite (Z.testbit_neg_r (Z.shiftr b 4)) by lia.
    assert (Hc : n = 0 \/ n = 1 \/ n = 2 \/ n = 3) by lia.
    destruct Hc as [-> | [-> | [-> | ->]]]; kill_bits.
  - rewrite Z.shiftr_spec by lia. replace (n - 4 + 4) with n by lia.
    rewrite (testbit_small 15 4 n), andb_false_r, orb_false_r by lia.
    destruct (Z.ltb_spec n 8); [reflexivity|].
    cbn. symmetry. apply (testbit_small b 8); lia.
Qed.

Section Raw.
Context {cs : BlockChecksum}.

(** [fixup] writes byte 7 only. *)
Lemma rd_fixup st i : i <> 7 -> rd (fixup st) i = rd st i.
Proof.
  intros Hi. unfold fixup, checksum, kGreeStateLength.
  destruct (Z.lt_ge_cases i 0).
  - unfold rd, wr8. replace (Z.to_nat i) with 0%nat by lia.
    now rewrite list_lookup_insert_ne by (cbn; lia).
  - apply rd_wr8_ne. cbn. lia.
Qed.

Lemma fields_fixup st : fields (fixup st) = fields st.
Proof.
  unfold fields, getPower, getMode, getTemp, getFan, getLight, getXFan,
    getSleep, getTurbo, getSwingVerticalAuto, getSwingVerticalPosition.
  now rewrite !rd_fixup by lia.
Qed.

(** On a record whose checksum is valid, [fixup] changes nothing. *)
Lemma fixup_of_valid st :
  is_state st -> is_u8 (rd st 7) ->
  validChecksum st kGreeStateLength = true -> fixup st = st.
Proof.
  intros Hst Hb Hvalid. unfold validChecksum in Hvalid.
  destruct (Z.eqb_spec (Z.shiftr (rd st (kGreeStateLength - 1)) 4)
                       (calcBlockChecksum st kGreeStateLength))
    as [Hsum|]; [|discriminate].
  unfold fixup, checksum. rewrite <- Hsum.
  change (kGreeStateLength - 1) with 7 in *.
  unfold wr8. rewrite nibbles_rejoin by assumption.
  apply list_insert_id. unfold rd in *.
  destruct (st !! Z.to_nat 7) as [b|] eqn:Hlk; [reflexivity|].
  apply lookup_ge_None in Hlk. unfold is_state, kGreeStateLength in Hst.
  cbn in *. lia.
Qed.

Hypothesis Hcontract : checksum_contract.

Lemma validChecksum_fixup st :
  is_state st -> validChecksum (fixup st) kGreeStateLength = true.
Proof.
  intros Hst.
  pose proof (checksum_nibble Hcontract st kGreeStateLength) as Hsum.
  unfold validChecksum.
  rewrite (checksum_footprint Hcontract (fixup st) st kGreeStateLength).
  - unfold fixup, checksum. change (kGreeStateLength - 1) with 7.
    array_simpl. rewrite checksum_nibble_read by assumption.
    now rewrite Z.eqb_refl.
  - reflexivity.
  - intros i Hi. apply rd_fixup. unfold kGreeStateLength in Hi. lia.
  - unfold fixup, checksum. change (kGreeStateLength - 1) with 7.
    array_simpl. apply checksum_low_nibble_kept.
Qed.

(** X9.  [fixup] can be called at any time and any number of times: it
    changes no field the getters read, and a second call changes nothing. *)
Theorem fixup_is_idempotent st :
  is_state st ->
  fields (fixup st) = fields st /\ fixup (fixup st) = fixup st.
Proof.
  intros Hst. split; [apply fields_fixup|].
  apply fixup_of_valid.
  - unfold fixup, checksum. now apply is_state_wr8.
  - unfold fixup, checksum. change (kGreeStateLength - 1) with 7.
    array_simpl. apply u8_range.
  - now apply validChecksum_fixup.
Qed.

End Raw.

(** X10.  [stateReset] forgets what the array held: the result is always the
    same record, with power off, mode field 0, 25 degrees, fan 0 (auto),
    light on, the other flags off and swing position 0, as the comment in
    the function announces. *)
Theorem stateReset_forgets st :
  is_state st ->
  stateReset st = reset_state
  /\ fields (stateReset st)
     = (false, 0, 25, 0, true, false, false, false, false, 0).
Proof.
  intros Hst. rewrite (stateReset_bytes st Hst). split; reflexivity.
Qed.

Lemma stateReset_forgets_witness :
  stateReset sample_record = reset_state
  /\ fields (stateReset sample_record)
     = (false, 0, 25, 0, true, false, false, false, false, 0).
Proof. apply (stateReset_forgets sample_record). reflexivity. Defined.

Section RawRoundTrip.
Context {cs : BlockChecksum}.
Hypothesis Hcontract : checksum_contract.

(** X11.  [setRaw] copies exactly [kGreeStateLength] bytes, whatever the
    array held and however long the source is; [getRaw] then hands back the
    same bytes when their checksum is valid. *)
Theorem setRaw_getRaw st code :
  is_state st -> (8 <= length code)%nat -> Forall is_u8 code ->
  setRaw st code = take 8 code
  /\ (validChecksum code kGreeStateLength = true ->
      getRaw (setRaw st code) = (take 8 code, take 8 code)).
Proof.
  intros Hst Hlen Hbytes.
  assert (Hraw : setRaw st code = take 8 code).
  { rewrite setRaw_bytes by assumption.
    apply map_u8_bytes. now apply Forall_take. }
  split; [exact Hraw|]. intros Hvalid. rewrite Hraw. unfold getRaw.
  assert (Htake : length (take 8 code) = 8%nat)
    by (rewrite length_take; lia).
  rewrite fixup_of_valid; [reflexivity|exact Htake| |].
  - unfold rd. destruct (take 8 code !! Z.to_nat 7) as [b|] eqn:Hlk;
      [|unfold is_u8; cbn; lia].
    cbn. assert (Hall : Forall is_u8 (take 8 code)) by now apply Forall_take.
    rewrite Forall_lookup in Hall. now apply (Hall _ _ Hlk).
  - rewrite <- (take_drop 8 code) in Hvalid.
    now rewrite (validChecksum_prefix Hcontract) in Hvalid.
Qed.

End RawRoundTrip.

Lemma setRaw_getRaw_witness :
  @setRaw reset_state (sample_record ++ [7; 7]) = take 8 (sample_record ++ [7; 7])
  /\ (@validChecksum nibble_sum (sample_record ++ [7; 7]) kGreeStateLength
      = true ->
      @getRaw nibble_sum (setRaw reset_state (sample_record ++ [7; 7]))
      = (take 8 (sample_record ++ [7; 7]), take 8 (sample_record ++ [7; 7]))).
Proof.
  apply (@setRaw_getRaw nibble_sum nibble_sum_contract reset_state
                        (sample_record ++ [7; 7]));
    [reflexivity | cbn; lia | repeat constructor; unfold is_u8; lia].
Defined.

Lemma fixup_is_idempotent_witness :
  fields (@fixup nibble_sum cool_state) = fields cool_state
  /\ @fixup nibble_sum (@fixup nibble_sum cool_state)
     = @fixup nibble_sum cool_state.
Proof.
  apply (@fixup_is_idempotent nibble_sum nibble_sum_contract cool_state).
  reflexivity.
Defined.

(** ** What [sendGree] emits *)

Lemma mark_space_pairs_app tx tx' :
  mark_space_pairs tx = true ->
  mark_space_pairs (tx ++ tx') = mark_space_pairs tx'.
Proof.
  assert (Hn : forall n tx0, (length tx0 <= n)%nat ->
                 mark_space_pairs tx0 = true ->
                 mark_space_pairs (tx0 ++ tx') = mark_space_pairs tx').
  { induction n as [|n IH]; intros tx0 Hlen Hp.
    - destruct tx0; [reflexivity|cbn in Hlen; lia].
    - destruct tx0 as [|[m|s] [|[m'|s'] r]]; try discriminate Hp;
        [reflexivity|].
      cbn in *. apply IH; [lia|assumption]. }
  apply (Hn (length tx)). lia.
Qed.

Lemma mark_space_pairs_mjoin (txs : list (list pulse)) :
  Forall (fun tx => mark_space_pairs tx = true) txs ->
  mark_space_pairs (mjoin txs) = true.
Proof.
  induction 1 as [|tx txs Htx _ IH]; [reflexivity|].
  change (mjoin (tx :: txs)) with (tx ++ mjoin txs).
  now rewrite mark_space_pairs_app.
Qed.

Lemma length_mjoin_const {A} (ls : list (list A)) (n : nat) :
  Forall (fun l => length l = n) ls ->
  length (mjoin ls) = (length ls * n)%nat.
Proof.
  induction 1 as [|l ls Hl _ IH]; [reflexivity|].
  change (mjoin (l :: ls)) with (l ++ mjoin ls).
  rewrite length_app, IH, Hl. cbn [length]. lia.
Qed.

Lemma sendData_lsb_pairs om os zm zs v n :
  mark_space_pairs (sendData_lsb om os zm zs v n) = true
  /\ length (sendData_lsb om os zm zs v n) = (2 * n)%nat.
Proof.
  revert v. induction n as [|n IH]; intros v; [split; reflexivity|].
  cbn [sendData_lsb]. destruct (IH (Z.shiftr v 1)) as [Hp Hl].
  destruct (Z.odd v); cbn; rewrite Hp, Hl; split; (reflexivity || lia).
Qed.

(** The bytes of a block: sixteen pulses each, in pairs. *)
Lemma send_bytes_pairs (data : list Z) (n : nat) :
  let tx := mjoin (map (fun i => sendData kGreeBitMark kGreeOneSpace
                                          kGreeBitMark kGreeZeroSpace
                                          (rd data (Z.of_nat i)) 8 false)
                       (seq 0 n)) in
  mark_space_pairs tx = true /\ length tx = (16 * n)%nat.
Proof.
  cbv zeta. split.
  - apply mark_space_pairs_mjoin, Forall_map, Forall_forall. intros i _.
    apply sendData_lsb_pairs.
  - rewrite (length_mjoin_const _ 16).
    + rewrite length_map, length_seq. lia.
    + apply Forall_map, Forall_forall. intros i _.
      apply (sendData_lsb_pairs _ _ _ _ _ 8).
Qed.

Lemma sendGree_message_pairs data nbytes :
  4 <= nbytes ->
  mark_space_pairs (sendGree_message data nbytes) = true
  /\ Z.of_nat (length (sendGree_message data nbytes)) = 16 * nbytes + 12.
Proof.
  intros Hn. unfold sendGree_message, sendGeneric_bytes, sendGeneric_value,
    sendGeneric_frame.
  change (kGreeHdrMark =? 0) with false. change (kGreeHdrSpace =? 0) with false.
  change (kGreeBitMark =? 0) with false. change (kGreeMsgSpace =? 0) with false.
  change (0 =? 0) with true.
  change (Z.to_nat 0 + 1)%nat with 1%nat. cbn [replicate mjoin list_join].
  rewrite !app_nil_r.
  destruct (send_bytes_pairs data (Z.to_nat 4)) as [Hp1 Hl1].
  destruct (send_bytes_pairs (drop 4 data) (Z.to_nat (nbytes - 4)))
    as [Hp2 Hl2].
  destruct (sendData_lsb_pairs kGreeBitMark kGreeOneSpace kGreeBitMark
              kGreeZeroSpace 2 (Z.to_nat 3)) as [Hp3 Hl3].
  change (sendData kGreeBitMark kGreeOneSpace kGreeBitMark kGreeZeroSpace 2 3
                   false)
    with (sendData_lsb kGreeBitMark kGreeOneSpace kGreeBitMark kGreeZeroSpace
                       2 (Z.to_nat 3)).
  cbv zeta in *. split.
  - cbn [app mark_space_pairs].
    rewrite mark_space_pairs_app by assumption.
    rewrite <- app_assoc, mark_space_pairs_app by assumption.
    cbn [app mark_space_pairs].
    rewrite mark_space_pairs_app by assumption. reflexivity.
  - cbn [app length]. rewrite !length_app, Hl1, Hl3, Hl2.
    cbn [length]. lia.
Qed.

(** X12.  For every data array, byte count and repeat count below 65535,
    [sendGree] returns; with fewer than 8 bytes it emits nothing, and
    otherwise it emits [repeat + 1] messages of [16 * nbytes + 12] pulses,
    every mark followed by a space. *)
Theorem sendGree_emits_pairs (data : list Z) (nbytes repeat_ : Z) :
  0 <= nbytes -> 0 <= repeat_ < 65535 ->
  exists tx,
    sendGree data nbytes repeat_ = Some tx
    /\ mark_space_pairs tx = true
    /\ Z.of_nat (length tx)
       = if nbytes <? 8 then 0 else (repeat_ + 1) * (16 * nbytes + 12).
Proof.
  intros Hn Hr. unfold sendGree, kGreeStateLength.
  destruct (Z.ltb_spec nbytes 8) as [Hlt|Hge].
  { exists []. repeat split. }
  replace (repeat_ =? 65535) with false by (symmetry; apply Z.eqb_neq; lia).
  eexists. split; [reflexivity|].
  destruct (sendGree_message_pairs data nbytes) as [Hp Hl]; [lia|].
  split.
  - apply mark_space_pairs_mjoin, Forall_replicate. exact Hp.
  - rewrite (length_mjoin_const _ (length (sendGree_message data nbytes)))
      by now apply Forall_replicate.
    rewrite length_replicate. nia.
Qed.

Lemma sendGree_emits_pairs_witness :
  exists tx,
    sendGree sample_record 8 2 = Some tx
    /\ mark_space_pairs tx = true
    /\ Z.of_nat (length tx)
       = if 8 <? 8 then 0 else (2 + 1) * (16 * 8 + 12).
Proof. apply (sendGree_emits_pairs sample_record 8 2); lia. Defined.

Lemma sendData_lsb_bit_pulses v n :
  sendData_lsb kGreeBitMark kGreeOneSpace kGreeBitMark kGreeZeroSpace v n
  = bit_pulses (lsb_bits v n).
Proof.
  revert v. induction n as [|n IH]; intros v; [reflexivity|].
  cbn [sendData_lsb lsb_bits bit_pulses]. rewrite IH.
  now destruct (Z.odd v).
Qed.

Lemma sendGree64_message_as_bytes b data :
  sendGree64_message b data kGreeBits
  = sendGree_message (be_bytes data) kGreeStateLength.
Proof.
  destruct b;
    cbv -[sendData_lsb Z.land Z.shiftr Z.odd kGreeBitMark kGreeOneSpace
          kGreeZeroSpace kGreeMsgSpace kGreeHdrMark kGreeHdrSpace];
    rewrite !sendData_lsb_bit_pulses; reflexivity.
Qed.

(** X13.  The two overloads of [sendGree] send the same pulses: a 64-bit
    value goes out as its eight bytes, most significant byte first, whichever
    bit order [sendData] uses by default for the 3-bit footer; with any
    other bit count the [uint64_t] overload sends nothing. *)
Theorem sendGree64_as_bytes (default_MSBfirst : bool) (data nbits repeat_ : Z) :
  sendGree64 default_MSBfirst data nbits repeat_
  = if nbits =? kGreeBits
    then sendGree (be_bytes data) kGreeStateLength repeat_
    else Some [].
Proof.
  unfold sendGree64, sendGree. destruct (Z.eqb_spec nbits kGreeBits) as [->|];
    [|reflexivity].
  cbn [negb]. change (kGreeStateLength <? kGreeStateLength) with false.
  cbv iota. now rewrite sendGree64_message_as_bytes.
Qed.
(** ** More on the decoder *)

Lemma length_record_block n st pos d :
  length (record_block n st pos d) = length st.
Proof.
  revert st pos d. induction n as [|n IH]; intros st pos d; [reflexivity|].
  cbn [record_block]. now rewrite IH, length_wr8.
Qed.

Lemma rd_record_block n st pos d i :
  0 <= pos -> (0 <= i < pos \/ pos + Z.of_nat n <= i) ->
  rd (record_block n st pos d) i = rd st i.
Proof.
  revert st pos d. induction n as [|n IH]; intros st pos d Hpos Hi;
    [reflexivity|].
  cbn [record_block]. rewrite IH by lia. apply rd_wr8_ne. lia.
Qed.

Section DecoderEffects.
Context {ops : IRrecvOps} {cs : BlockChecksum}.

Ltac leave_if Hrun :=
  match type of Hrun with
  | (if ?c then _ else _) = _ => destruct c eqn:?
  end.

Lemma decodeGree_run_result results nbits strict e r :
  decodeGree_run results nbits strict = (e, r) ->
  r = if is_success e
      then mk_results GREE (reconstructed results) 64 (rawbuf results)
                      (rawlen results)
      else set_state results (state_at_exit e results).
Proof.
  intros Hrun. unfold decodeGree_run in Hrun. cbv zeta in Hrun.
  repeat (leave_if Hrun;
          [injection Hrun as <- <-; destruct results; reflexivity|]).
  injection Hrun as <- <-. reflexivity.
Qed.

Lemma state_at_exit_frame e results :
  length (state_at_exit e results) = length (state results)
  /\ (forall i, 8 <= i ->
        rd (state_at_exit e results) i = rd (state results) i).
Proof.
  destruct e; cbn [state_at_exit]; unfold reconstructed;
    rewrite ?length_record_block; (split; [reflexivity|]); intros i Hi;
    rewrite ?rd_record_block by (cbn; lia); reflexivity.
Qed.

(** X14.  Whatever the capture holds, a call of [decodeGree] never writes
    the raw buffer or its length, keeps the size of the state buffer and
    writes none of its bytes from index 8 on.  A call that fails leaves
    [decode_type] and [bits] alone, but it has stored block 1 in bytes 0-3
    once the footer is reached and block 2 in bytes 4-7 once the trailer is
    reached: a failed call can leave a partly or fully overwritten state. *)
Theorem decodeGree_effects results nbits strict e r :
  decodeGree_run results nbits strict = (e, r) ->
  rawbuf r = rawbuf results
  /\ rawlen r = rawlen results
  /\ state r = state_at_exit e results
  /\ length (state r) = length (state results)
  /\ (forall i, 8 <= i -> rd (state r) i = rd (state results) i)
  /\ (e <> Success ->
      decode_type r = decode_type results /\ bits r = bits results).
Proof.
  intros Hrun. apply decodeGree_run_result in Hrun.
  destruct (state_at_exit_frame e results) as [Hlen Hfar].
  assert (Hstate : state r = state_at_exit e results)
    by (subst r; now destruct e).
  rewrite Hstate. repeat split; try assumption;
    try (subst r; now destruct e).
  all: intros; subst r; destruct e; try reflexivity; congruence.
Qed.

Lemma decodeGree_run_rejects results nbits strict :
  framing_ok results nbits = false ->
  is_success (fst (decodeGree_run results nbits strict)) = false.
Proof.
  intros Hf. destruct (decodeGree_run results nbits strict) as [e r] eqn:Hrun.
  destruct e; try reflexivity.
  apply decodeGree_run_success in Hrun. congruence.
Qed.

(** X15.  [decodeGree] accepts a capture exactly when it passes the framing
    checks and, in strict mode, the bit count asked for is 64 and the
    checksum of the reconstructed record is valid. *)
Theorem decodeGree_accepts_iff results nbits strict :
  fst (decodeGree results nbits strict)
  = framing_ok results nbits
    && (negb strict
        || ((nbits =? kGreeBits)
            && validChecksum (reconstructed results) kGreeStateLength)).
Proof.
  unfold decodeGree.
  destruct (framing_ok results nbits) eqn:Hf.
  - rewrite decodeGree_run_framed by assumption.
    destruct strict; [|reflexivity]. cbn [andb negb orb].
    destruct (nbits =? kGreeBits); [|reflexivity]. cbn [negb].
    now destruct (validChecksum (reconstructed results) kGreeStateLength).
  - pose proof (decodeGree_run_rejects results nbits strict Hf) as Hrej.
    now destruct (decodeGree_run results nbits strict).
Qed.

(** X16.  Strict mode only narrows lenient mode: a capture accepted in
    strict mode is accepted in lenient mode, with the same results object. *)
Theorem strict_implies_lenient results nbits :
  fst (decodeGree results nbits true) = true ->
  decodeGree results nbits false = decodeGree results nbits true.
Proof.
  unfold decodeGree. intros Hstrict.
  destruct (framing_ok results nbits) eqn:Hf.
  - rewrite !decodeGree_run_framed in * by assumption.
    cbn [andb negb] in *.
    destruct (negb (nbits =? kGreeBits)); [discriminate|].
    destruct (negb (validChecksum (reconstructed results) kGreeStateLength));
      [discriminate|reflexivity].
  - pose proof (decodeGree_run_rejects results nbits true Hf) as Hrej.
    destruct (decodeGree_run results nbits true). cbn in *. congruence.
Qed.

End DecoderEffects.

Lemma decodeGree_effects_witness :
  let results := capture bad_footer_tx (replicate 10 255) in
  let r := snd (@decodeGree_run sample_ops nibble_sum results 64 true) in
  rawbuf r = rawbuf results
  /\ rawlen r = rawlen results
  /\ state r = @state_at_exit sample_ops FooterMismatch results
  /\ length (state r) = length (state results)
  /\ (forall i, 8 <= i -> rd (state r) i = rd (state results) i)
  /\ (FooterMismatch <> Success ->
      decode_type r = decode_type results /\ bits r = bits results).
Proof.
  apply (@decodeGree_effects sample_ops nibble_sum
           (capture bad_footer_tx (replicate 10 255)) 64 true FooterMismatch
           (snd (@decodeGree_run sample_ops nibble_sum
                   (capture bad_footer_tx (replicate 10 255)) 64 true))).
  vm_compute. reflexivity.
Defined.

Lemma strict_implies_lenient_witness :
  @decodeGree sample_ops nibble_sum (capture sample_tx (replicate 8 0)) 64
              false
  = @decodeGree sample_ops nibble_sum (capture sample_tx (replicate 8 0)) 64
                true.
Proof.
  apply (@strict_implies_lenient sample_ops nibble_sum
           (capture sample_tx (replicate 8 0)) 64).
  vm_compute. reflexivity.
Defined.

(** ** Sending a state and decoding it *)

Section SendRoundTrip.
Context {cs : BlockChecksum}.
Variables (tolerance excess : Z) (mark_ok space_ok at_least : Z -> Z -> bool).
Hypothesis Hcmp : comparators_ok mark_ok space_ok at_least.
Hypothesis Hcontract : checksum_contract.

Local Abbreviation ops :=
  (model_ops tolerance excess mark_ok space_ok at_least).

(** Decoding one message of eight bytes, in either mode. *)
Lemma decode_sent (R st0 : list Z) (strict : bool) :
  length R = 8%nat ->
  Forall is_u8 R ->
  (8 <= length st0)%nat ->
  exists tx,
    sendGree R kGreeStateLength 0 = Some tx
    /\ @decodeGree ops cs (capture tx st0) kGreeBits strict
       = if strict && negb (validChecksum R kGreeStateLength)
         then (false,
               set_state (capture tx st0) (R ++ drop 8 st0))
         else (true,
               mk_results GREE (R ++ drop 8 st0) 64
                          (rawbuf (capture tx st0)) (rawlen (capture tx st0))).
Proof.
  intros HR Hbytes Hst0.
  destruct R as [|b0 [|b1 [|b2 [|b3 [|b4 [|b5 [|b6 [|b7 [|? ?]]]]]]]]];
    try discriminate HR. clear HR.
  repeat match goal with
         | Hb : Forall _ (_ :: _) |- _ =>
             apply Forall_cons in Hb as [? Hb]
         end.
  destruct (sendGree_timings b0 b1 b2 b3 b4 b5 b6 b7) as (tx & Htx & Hraw).
  exists tx. split; [exact Htx|].
  unfold capture, decodeGree. cbn [length rawbuf rawlen]. rewrite length_map.
  assert (Hlen : Z.of_nat (S (length tx)) = 141).
  { rewrite <- (length_map duration), Hraw.
    unfold frame_timings, after_block1, after_footer, after_gap, block_bits.
    cbn [length].
    rewrite !length_app, !length_bit_timings, !length_app, !length_lsb_bits.
    reflexivity. }
  rewrite Hlen, Hraw.
  fold (frame_capture 0 st0 (block_bits b0 b1 b2 b3) (block_bits b4 b5 b6 b7)).
  assert (HB : forall a b c d, length (block_bits a b c d) = 32%nat).
  { intros. unfold block_bits. now rewrite !length_app, !length_lsb_bits. }
  rewrite decodeGree_run_framed
    by (apply (frame_framing_ok _ _ _ _ _ Hcmp); apply HB).
  rewrite (frame_reconstructed _ _ _ _ _ Hcmp) by apply HB.
  rewrite !record_block_bytes by assumption.
  rewrite store_record by assumption.
  rewrite (validChecksum_prefix Hcontract) by reflexivity.
  change (negb (kGreeBits =? kGreeBits)) with false.
  rewrite andb_false_r.
  destruct (strict && negb (validChecksum [b0; b1; b2; b3; b4; b5; b6; b7]
                                          kGreeStateLength));
    reflexivity.
Qed.

(** X17.  What [IRGreeAC::send] transmits for a state of eight bytes is
    accepted by the strict decoder and read back as the state with its
    checksum fixed up: every field the getters read comes back as it was
    set. *)
Theorem send_then_decode (st st0 : list Z) :
  is_state st -> Forall is_u8 st -> (8 <= length st0)%nat ->
  exists tx res,
    send st 0 = (fixup st, Some tx)
    /\ @decodeGree ops cs (capture tx st0) kGreeBits true = (true, res)
    /\ take 8 (state res) = fixup st
    /\ fields (take 8 (state res)) = fields st
    /\ bits res = 64.
Proof.
  intros Hst Hbytes Hst0.
  assert (Hfix : is_state (fixup st))
    by (unfold fixup, checksum; now apply is_state_wr8).
  assert (Hfb : Forall is_u8 (fixup st)).
  { unfold fixup, checksum, wr8. apply Forall_insert; [assumption|].
    apply u8_range. }
  destruct (decode_sent (fixup st) st0 true Hfix Hfb Hst0) as (tx & Htx & Hdec).
  rewrite (validChecksum_fixup Hcontract) in Hdec by assumption.
  cbn [andb negb] in Hdec.
  exists tx. eexists. split; [unfold send; now rewrite Htx|].
  split; [exact Hdec|]. cbn [state bits].
  assert (Htake : take 8 (fixup st ++ drop 8 st0) = fixup st).
  { rewrite take_app_length'; [reflexivity|symmetry; exact Hfix]. }
  rewrite Htake. repeat split. apply fields_fixup.
Qed.

(** X18.  In lenient mode every record of eight bytes comes back from its
    own transmission, whether its checksum nibble is right or not. *)
Theorem lenient_round_trip (R st0 : list Z) :
  length R = 8%nat -> Forall is_u8 R -> (8 <= length st0)%nat ->
  exists tx res,
    sendGree R kGreeStateLength 0 = Some tx
    /\ @decodeGree ops cs (capture tx st0) kGreeBits false = (true, res)
    /\ take 8 (state res) = R.
Proof.
  intros HR Hbytes Hst0.
  destruct (decode_sent R st0 false HR Hbytes Hst0) as (tx & Htx & Hdec).
  cbn [andb] in Hdec.
  exists tx. eexists. split; [exact Htx|]. split; [exact Hdec|].
  cbn [state]. rewrite take_app_length'; [reflexivity|now symmetry].
Qed.

End SendRoundTrip.

Lemma send_then_decode_witness :
  exists tx res,
    @send nibble_sum cool_state 0 = (@fixup nibble_sum cool_state, Some tx)
    /\ @decodeGree sample_ops nibble_sum (capture tx (replicate 8 0))
                   kGreeBits true = (true, res)
    /\ take 8 (state res) = @fixup nibble_sum cool_state
    /\ fields (take 8 (state res)) = fields cool_state
    /\ bits res = 64.
Proof.
  apply (@send_then_decode nibble_sum 25 50 (within 25 50) (within 25 50)
           (reaches 25 50) sample_comparators_ok nibble_sum_contract
           cool_state (replicate 8 0));
    [ reflexivity
    | repeat constructor; unfold is_u8; lia
    | cbn; lia ].
Defined.

Lemma lenient_round_trip_witness :
  exists tx res,
    sendGree reset_state kGreeStateLength 0 = Some tx
    /\ @decodeGree sample_ops nibble_sum (capture tx (replicate 8 0))
                   kGreeBits false = (true, res)
    /\ take 8 (state res) = reset_state.
Proof.
  apply (@lenient_round_trip nibble_sum 25 50 (within 25 50) (within 25 50)
           (reaches 25 50) sample_comparators_ok nibble_sum_contract
           reset_state (replicate 8 0));
    [ reflexivity
    | repeat constructor; unfold is_u8; lia
    | cbn; lia ].
Defined.

(** ** To the common representation and back *)

Section CommonRoundTrip.
Context {codes : GreeCodes}.
Hypothesis Hcodes : codes_ok.

Lemma convertMode_is_code m : convertMode m ∈ mode_codes.
Proof.
  unfold mode_codes. destruct m; cbn [convertMode];
    rewrite !elem_of_cons; tauto.
Qed.

Lemma toCommonMode_convertMode m :
  toCommonMode (convertMode m) = known_mode m.
Proof.
  pose proof (mode_codes_distinct Hcodes) as Hnd. unfold mode_codes in Hnd.
  rewrite !NoDup_cons, !elem_of_cons, elem_of_nil in Hnd.
  unfold toCommonMode.
  destruct m; cbn [convertMode known_mode];
    repeat match goal with
           | |- context [?a =? ?b] => destruct (Z.eqb_spec a b)
           end;
    try reflexivity; exfalso; intuition congruence.
Qed.

(** X19.  A mode of the common representation survives the trip through the
    state: [setMode] of the converted mode, read back by [toCommon], is the
    mode itself (and [kAuto] for an enumerator [convertMode] does not name);
    the code stored is always one of the five, so [setMode] never falls back
    to its default. *)
Theorem common_mode_round_trip st m :
  is_state st ->
  getMode (setMode st (convertMode m)) = convertMode m
  /\ stdAc.mode (toCommon (setMode st (convertMode m))) = known_mode m.
Proof.
  intros Hst.
  assert (Hm : getMode (setMode st (convertMode m)) = convertMode m).
  { pose proof (fields_setMode Hcodes st (convertMode m) Hst) as E.
    unfold fields in E.
    rewrite bool_decide_eq_true_2 in E by apply convertMode_is_code.
    now injection E as _ -> _ _ _ _ _ _ _ _. }
  split; [exact Hm|]. cbn [toCommon stdAc.mode]. rewrite Hm.
  apply toCommonMode_convertMode.
Qed.

End CommonRoundTrip.

Lemma common_mode_round_trip_witness :
  getMode (@setMode sample_codes reset_state
                    (@convertMode sample_codes stdAc.opmode_t.kHeat))
  = @convertMode sample_codes stdAc.opmode_t.kHeat
  /\ stdAc.mode
       (@toCommon sample_codes
          (@setMode sample_codes reset_state
                    (@convertMode sample_codes stdAc.opmode_t.kHeat)))
     = known_mode stdAc.opmode_t.kHeat.
Proof.
  apply (@common_mode_round_trip sample_codes sample_codes_ok reset_state
                                 stdAc.opmode_t.kHeat).
  reflexivity.
Defined.

Section CommonFan.
Context {codes : GreeCodes}.

Lemma convertFan_range s : 0 <= convertFan s <= kGreeFanMax.
Proof.
  unfold convertFan, kGreeFanMin, kGreeFanAuto, kGreeFanMax.
  destruct s; lia.
Qed.

(** X20.  A fan speed of the common representation goes through the state
    in three tiers: outside Dry mode low and medium both come back as
    medium and high and max both as max, min and auto come back as
    themselves; in Dry mode every speed comes back as min.  The native
    speed [convertFan] gives is never above [kGreeFanMax]. *)
Theorem common_fan_tiers st s :
  is_state st ->
  0 <= convertFan s <= kGreeFanMax
  /\ stdAc.fanspeed (toCommon (setFan st (convertFan s)))
     = if getMode st =? kGreeDry then stdAc.fanspeed_t.kMin else fan_tier s.
Proof.
  intros Hst. split; [apply convertFan_range|].
  pose proof (convertFan_range s) as Hr. unfold kGreeFanMax in Hr.
  pose proof (fields_setFan st (convertFan s) Hst
                ltac:(unfold is_u8; lia)) as E.
  unfold fields in E. injection E as _ _ _ Hfan _ _ _ _ _ _.
  cbn [toCommon stdAc.fanspeed]. rewrite Hfan.
  destruct (getMode st =? kGreeDry); [reflexivity|].
  destruct s; reflexivity.
Qed.

End CommonFan.

Lemma common_fan_tiers_witness :
  0 <= convertFan stdAc.fanspeed_t.kLow <= kGreeFanMax
  /\ stdAc.fanspeed
       (@toCommon sample_codes
          (@setFan sample_codes cool_state
                   (convertFan stdAc.fanspeed_t.kLow)))
     = if getMode cool_state =? @kGreeDry sample_codes
       then stdAc.fanspeed_t.kMin else fan_tier stdAc.fanspeed_t.kLow.
Proof.
  apply (@common_fan_tiers sample_codes cool_state stdAc.fanspeed_t.kLow).
  reflexivity.
Defined.

Section CommonSwing.
Context {codes : GreeCodes}.
Hypothesis Hcodes : codes_ok.
Hypothesis Hmanual : NoDup manual_swing_codes.

Lemma convertSwingV_manual s :
  s ∈ [stdAc.swingv_t.kHighest; stdAc.swingv_t.kHigh; stdAc.swingv_t.kMiddle;
       stdAc.swingv_t.kLow; stdAc.swingv_t.kLowest] ->
  convertSwingV s ∈ manual_swing_codes.
Proof.
  unfold manual_swing_codes. rewrite !elem_of_cons, elem_of_nil.
  intros [-> | [-> | [-> | [-> | [-> | []]]]]]; cbn [convertSwingV]; tauto.
Qed.

Lemma manual_position_stored st p :
  is_state st -> p ∈ manual_swing_codes ->
  getSwingVerticalPosition (setSwingVertical st false p) = p.
Proof.
  intros Hst Hp. unfold getSwingVerticalPosition, setSwingVertical.
  cbn [negb]. array_simpl.
  replace ((p =? kGreeSwingUp) || (p =? kGreeSwingMiddleUp)
           || (p =? kGreeSwingMiddle) || (p =? kGreeSwingMiddleDown)
           || (p =? kGreeSwingDown)) with true.
  - apply field_write_read; [unfold kGreeSwingPosMask; lia|].
    now apply (swing_code_fits Hcodes), manual_code_known.
  - symmetry. rewrite !orb_true_iff, !Z.eqb_eq.
    unfold manual_swing_codes in Hp.
    rewrite !elem_of_cons, elem_of_nil in Hp. tauto.
Qed.

Lemma toCommonSwingV_convertSwingV s :
  s ∈ [stdAc.swingv_t.kHighest; stdAc.swingv_t.kHigh; stdAc.swingv_t.kMiddle;
       stdAc.swingv_t.kLow; stdAc.swingv_t.kLowest] ->
  toCommonSwingV (convertSwingV s) = s.
Proof.
  pose proof Hmanual as Hnd. unfold manual_swing_codes in Hnd.
  rewrite !NoDup_cons, !elem_of_cons, elem_of_nil in Hnd.
  rewrite !elem_of_cons, elem_of_nil. unfold toCommonSwingV.
  intros [-> | [-> | [-> | [-> | [-> | []]]]]]; cbn [convertSwingV];
    repeat match goal with
           | |- context [?a =? ?b] => destruct (Z.eqb_spec a b)
           end;
    try reflexivity; exfalso; intuition congruence.
Qed.

(** X21.  The vertical swing of the common representation goes through the
    state: each of the five fixed positions, converted and set with the
    automatic flag off, is read back by [toCommon] as itself; with the flag
    on, [toCommon] reports automatic swing whatever position was given. *)
Theorem common_swing_round_trip st :
  is_state st ->
  (forall s,
      s ∈ [stdAc.swingv_t.kHighest; stdAc.swingv_t.kHigh;
           stdAc.swingv_t.kMiddle; stdAc.swingv_t.kLow;
           stdAc.swingv_t.kLowest] ->
      stdAc.swingv (toCommon (setSwingVertical st false (convertSwingV s)))
      = s)
  /\ (forall p,
         stdAc.swingv (toCommon (setSwingVertical st true p))
         = stdAc.swingv_t.kAuto).
Proof.
  intros Hst. split.
  - intros s Hs. cbn [toCommon stdAc.swingv].
    rewrite swing_flag_stored, manual_position_stored
      by (try apply convertSwingV_manual; assumption).
    now apply toCommonSwingV_convertSwingV.
  - intros p. cbn [toCommon stdAc.swingv].
    now rewrite swing_flag_stored by assumption.
Qed.

End CommonSwing.

Lemma sample_manual_swing_distinct : NoDup (@manual_swing_codes sample_codes).
Proof.
  unfold manual_swing_codes. cbn.
  repeat (apply NoDup_cons; split); [| | | | |apply NoDup_nil_2];
    rewrite ?elem_of_cons, elem_of_nil; lia.
Qed.

Lemma common_swing_round_trip_witness :
  (forall s,
      s ∈ [stdAc.swingv_t.kHighest; stdAc.swingv_t.kHigh;
           stdAc.swingv_t.kMiddle; stdAc.swingv_t.kLow;
           stdAc.swingv_t.kLowest] ->
      stdAc.swingv
        (@toCommon sample_codes
           (@setSwingVertical sample_codes reset_state false
                              (@convertSwingV sample_codes s)))
      = s)
  /\ (forall p,
         stdAc.swingv
           (@toCommon sample_codes
              (@setSwingVertical sample_codes reset_state true p))
         = stdAc.swingv_t.kAuto).
Proof.
  apply (@common_swing_round_trip sample_codes sample_codes_ok
                                  sample_manual_swing_distinct reset_state).
  reflexivity.
Defined.

Section CommonFlags.
Context {codes : GreeCodes}.

(** X22.  What a setter stores, [toCommon] reports: power, light and turbo
    under their own names, XFan as [clean], sleep as 0 when on and -1 when
    off, and the temperature as Celsius degrees, clamped to 16..30 (25 in
    Auto mode). *)
Theorem toCommon_after_setters st b t :
  is_state st -> is_u8 t ->
  stdAc.power (toCommon (setPower st b)) = b
  /\ stdAc.light (toCommon (setLight st b)) = b
  /\ stdAc.clean (toCommon (setXFan st b)) = b
  /\ stdAc.turbo (toCommon (setTurbo st b)) = b
  /\ stdAc.sleep (toCommon (setSleep st b)) = (if b then 0 else -1)
  /\ stdAc.celsius (toCommon (setTemp st t)) = true
  /\ stdAc.degrees (toCommon (setTemp st t))
     = if getMode st =? kGreeAuto then 25 else Z.min 30 (Z.max 16 t).
Proof.
  intros Hst Ht. cbn [toCommon stdAc.power stdAc.light stdAc.clean
                      stdAc.turbo stdAc.sleep stdAc.celsius stdAc.degrees].
  pose proof (fields_setPower st b Hst) as E1.
  pose proof (fields_setLight st b Hst) as E2.
  pose proof (fields_setXFan st b Hst) as E3.
  pose proof (fields_setTurbo st b Hst) as E4.
  pose proof (fields_setSleep st b Hst) as E5.
  pose proof (fields_setTemp st t Hst Ht) as E6.
  unfold fields in *.
  injection E1 as -> _ _ _ _ _ _ _ _ _.
  injection E2 as _ _ _ _ -> _ _ _ _ _.
  injection E3 as _ _ _ _ _ -> _ _ _ _.
  injection E4 as _ _ _ _ _ _ _ -> _ _.
  injection E5 as _ _ _ _ _ _ -> _ _ _.
  injection E6 as _ _ -> _ _ _ _ _ _ _.
  repeat split.
Qed.

End CommonFlags.

Lemma toCommon_after_setters_witness :
  stdAc.power (@toCommon sample_codes (setPower cool_state true)) = true
  /\ stdAc.light (@toCommon sample_codes (setLight cool_state true)) = true
  /\ stdAc.clean (@toCommon sample_codes (setXFan cool_state true)) = true
  /\ stdAc.turbo (@toCommon sample_codes (setTurbo cool_state true)) = true
  /\ stdAc.sleep (@toCommon sample_codes (setSleep cool_state true))
     = (if true then 0 else -1)
  /\ stdAc.celsius
       (@toCommon sample_codes (@setTemp sample_codes cool_state 12)) = true
  /\ stdAc.degrees
       (@toCommon sample_codes (@setTemp sample_codes cool_state 12))
     = if getMode cool_state =? @kGreeAuto sample_codes then 25
       else Z.min 30 (Z.max 16 12).
Proof.
  apply (@toCommon_after_setters sample_codes cool_state true 12);
    [reflexivity | unfold is_u8; lia].
Defined.
